(** * flagd-web provider: fingerprint-keyed resolution cache and
      connection lifecycle

    A shallow embedding of
    [libs/providers/flagd-web/src/lib/flagd-web-provider.ts] and of the
    configuration module it imports, with the properties of the
    provider's specification stated and settled against it.

    Conventions of the embedding:
    - JavaScript strings are Rocq [string]s (byte strings; the examples
      stay inside ASCII, where UTF-8 and UTF-16 code units coincide);
    - JavaScript numbers that the provider handles ([maxRetries], the
      retry index, cache sizes, time stamps in milliseconds) are integers
      [Z]; the jittered delay, the only fractional quantity, is a
      rational [Q];
    - a JavaScript object used as a record of JSON data is an association
      list in property-enumeration order, the order [JSON.stringify]
      follows; the object that node-cache uses as a hash table is a
      [gmap];
    - [this] is an explicit record [FlagdWebProvider] threaded through
      every method; callbacks of the event stream are the events of a
      step function. *)

From Stdlib Require Import ZArith QArith Lqa Ascii String List Lia Bool.
From stdpp Require Import gmap strings list fin_maps pretty.

Local Open Scope string_scope.
Local Open Scope Z_scope.

(** ** JSON values and [JSON.stringify] *)

Module Json.

#[local] Set Warnings "-register-all".

Inductive JsonValue : Type :=
| JNull
| JBool (b : bool)
| JNumber (n : Z)
| JString (s : string)
| JArray (items : list JsonValue)
| JObject (fields : list (string * JsonValue)).

Definition hexDigit (n : Z) : ascii :=
  match n with
  | 0 => "0" | 1 => "1" | 2 => "2" | 3 => "3" | 4 => "4" | 5 => "5"
  | 6 => "6" | 7 => "7" | 8 => "8" | 9 => "9" | 10 => "a" | 11 => "b"
  | 12 => "c" | 13 => "d" | 14 => "e" | _ => "f"
  end%char.

Definition codeUnit (c : ascii) : Z := Z.of_N (N_of_ascii c).

(** The double-quote character, code unit 34. *)
Definition dquote : string := String (ascii_of_N 34) "".

(** The escape of one code unit inside a JSON string literal
    (ECMA-262, QuoteJSONString). *)
Definition quoteChar (c : ascii) : string :=
  let n := codeUnit c in
  if n =? 34 then "\" +:+ dquote
  else if n =? 92 then "\\"
  else if n =? 8 then "\b"
  else if n =? 12 then "\f"
  else if n =? 10 then "\n"
  else if n =? 13 then "\r"
  else if n =? 9 then "\t"
  else if n <? 32 then
    "\u00" +:+ String (hexDigit (n / 16)) (String (hexDigit (n mod 16)) "")
  else String c "".

Fixpoint quoteBody (s : string) : string :=
  match s with
  | "" => ""
  | String c s' => quoteChar c +:+ quoteBody s'
  end.

Definition quote (s : string) : string := dquote +:+ quoteBody s +:+ dquote.

Definition joinComma (parts : list string) : string :=
  match parts with
  | [] => ""
  | p :: ps => fold_left (fun acc q => acc +:+ "," +:+ q) ps p
  end.

(** [JSON.stringify] without indentation.  Properties are written in
    enumeration order; nothing is sorted. *)
Fixpoint stringify (v : JsonValue) : string :=
  match v with
  | JNull => "null"
  | JBool true => "true"
  | JBool false => "false"
  | JNumber n => pretty n
  | JString s => quote s
  | JArray items => "[" +:+ joinComma (map stringify items) +:+ "]"
  | JObject fields =>
      "{" +:+
      joinComma (map (fun kv => quote (fst kv) +:+ ":" +:+ stringify (snd kv))
                     fields)
      +:+ "}"
  end.

(** Property read [obj.name]: [None] is JavaScript's [undefined]. *)
Fixpoint getField (name : string) (fields : list (string * JsonValue))
  : option JsonValue :=
  match fields with
  | [] => None
  | (k, v) :: rest => if String.eqb k name then Some v else getField name rest
  end.

End Json.
Export Json.

(** ** [Md5.hashStr] *)

(** Modelled from the spec: the hash of the serialised context (§4.1) is
    computed by the ts-md5 package, whose code is not under src/.
    [hashStr] is the MD5 digest of RFC 1321 over the bytes of the
    string, printed as 32 lowercase hexadecimal digits, which is what
    [Md5.hashStr] returns.  Words are 32-bit integers in [Z] with the
    wrap-around written out. *)
Module Md5.

Definition w32 (x : Z) : Z := x mod 2 ^ 32.

Definition rotl (x n : Z) : Z :=
  w32 (Z.lor (Z.shiftl x n) (Z.shiftr (w32 x) (32 - n))).

Definition not32 (x : Z) : Z := Z.lxor x 0xffffffff.

Definition K : list Z :=
  [ 0xd76aa478; 0xe8c7b756; 0x242070db; 0xc1bdceee;
    0xf57c0faf; 0x4787c62a; 0xa8304613; 0xfd469501;
    0x698098d8; 0x8b44f7af; 0xffff5bb1; 0x895cd7be;
    0x6b901122; 0xfd987193; 0xa679438e; 0x49b40821;
    0xf61e2562; 0xc040b340; 0x265e5a51; 0xe9b6c7aa;
    0xd62f105d; 0x02441453; 0xd8a1e681; 0xe7d3fbc8;
    0x21e1cde6; 0xc33707d6; 0xf4d50d87; 0x455a14ed;
    0xa9e3e905; 0xfcefa3f8; 0x676f02d9; 0x8d2a4c8a;
    0xfffa3942; 0x8771f681; 0x6d9d6122; 0xfde5380c;
    0xa4beea44; 0x4bdecfa9; 0xf6bb4b60; 0xbebfbc70;
    0x289b7ec6; 0xeaa127fa; 0xd4ef3085; 0x04881d05;
    0xd9d4d039; 0xe6db99e5; 0x1fa27cf8; 0xc4ac5665;
    0xf4292244; 0x432aff97; 0xab9423a7; 0xfc93a039;
    0x655b59c3; 0x8f0ccc92; 0xffeff47d; 0x85845dd1;
    0x6fa87e4f; 0xfe2ce6e0; 0xa3014314; 0x4e0811a1;
    0xf7537e82; 0xbd3af235; 0x2ad7d2bb; 0xeb86d391 ].

Definition S : list Z :=
  [ 7; 12; 17; 22; 7; 12; 17; 22; 7; 12; 17; 22; 7; 12; 17; 22;
    5; 9; 14; 20; 5; 9; 14; 20; 5; 9; 14; 20; 5; 9; 14; 20;
    4; 11; 16; 23; 4; 11; 16; 23; 4; 11; 16; 23; 4; 11; 16; 23;
    6; 10; 15; 21; 6; 10; 15; 21; 6; 10; 15; 21; 6; 10; 15; 21 ].

Definition nthZ (l : list Z) (i : Z) : Z := nth (Z.to_nat i) l 0.

Record State := { sa : Z; sb : Z; sc : Z; sd : Z }.

Definition init : State :=
  {| sa := 0x67452301; sb := 0xefcdab89; sc := 0x98badcfe; sd := 0x10325476 |}.

(** One of the 64 operations of a block; [m] holds its 16 words. *)
Definition round (m : list Z) (st : State) (i : Z) : State :=
  let '(Build_State a b c d) := st in
  let '(f, g) :=
    if i <? 16 then (Z.lor (Z.land b c) (Z.land (not32 b) d), i)
    else if i <? 32 then
      (Z.lor (Z.land d b) (Z.land (not32 d) c), (5 * i + 1) mod 16)
    else if i <? 48 then (Z.lxor b (Z.lxor c d), (3 * i + 5) mod 16)
    else (Z.lxor c (Z.lor b (not32 d)), (7 * i) mod 16) in
  let f' := w32 (f + a + nthZ K i + nthZ m g) in
  {| sa := d; sd := c; sc := b; sb := w32 (b + rotl f' (nthZ S i)) |}.

Definition block (st : State) (m : list Z) : State :=
  let st' := fold_left (round m) (map Z.of_nat (seq 0 64)) st in
  {| sa := w32 (sa st + sa st'); sb := w32 (sb st + sb st');
     sc := w32 (sc st + sc st'); sd := w32 (sd st + sd st') |}.

Fixpoint bytesOf (s : string) : list Z :=
  match s with
  | "" => []
  | String c s' => Json.codeUnit c :: bytesOf s'
  end.

(** The [n] low bytes of [x], least significant first. *)
Fixpoint leBytes (n : nat) (x : Z) : list Z :=
  match n with
  | O => []
  | Datatypes.S n' => x mod 256 :: leBytes n' (x / 256)
  end.

Definition pad (bytes : list Z) : list Z :=
  let len := Z.of_nat (length bytes) in
  let zeros := Z.to_nat ((55 - len) mod 64) in
  bytes ++ [128] ++ repeat 0 zeros ++ leBytes 8 (8 * len).

Definition wordOf (b0 b1 b2 b3 : Z) : Z :=
  b0 + 256 * b1 + 65536 * b2 + 16777216 * b3.

Fixpoint words (fuel : nat) (bytes : list Z) : list Z :=
  match fuel, bytes with
  | Datatypes.S fuel', b0 :: b1 :: b2 :: b3 :: rest =>
      wordOf b0 b1 b2 b3 :: words fuel' rest
  | _, _ => []
  end.

Fixpoint blocks (fuel : nat) (ws : list Z) : list (list Z) :=
  match fuel, ws with
  | Datatypes.S fuel', _ :: _ => firstn 16 ws :: blocks fuel' (skipn 16 ws)
  | _, _ => []
  end.

Definition digest (s : string) : State :=
  let bytes := pad (bytesOf s) in
  let ws := words (length bytes) bytes in
  fold_left block (blocks (length ws) ws) init.

Fixpoint hexBytes (bs : list Z) : string :=
  match bs with
  | [] => ""
  | b :: rest =>
      String (Json.hexDigit (b / 16))
        (String (Json.hexDigit (b mod 16)) (hexBytes rest))
  end.

Definition hashStr (s : string) : string :=
  let st := digest s in
  hexBytes (leBytes 4 (sa st) ++ leBytes 4 (sb st)
            ++ leBytes 4 (sc st) ++ leBytes 4 (sd st)).

End Md5.

(** ** Resolution results *)

(** The four value kinds of a flag.  Numbers are integer-valued. *)
Inductive FlagValue : Type :=
| VBoolean (b : bool)
| VString (s : string)
| VNumber (n : Z)
| VObject (j : JsonValue).

(** [ResolutionDetails<T>]: [variant] and [errorCode] are optional
    properties. *)
Record ResolutionDetails : Type := {
  value : FlagValue;
  reason : string;
  variant : option string;
  errorCode : option string
}.

(** ** The node-cache store *)

(** Modelled from the spec: the store behind [this.cache] is the
    node-cache package, whose code is not under src/.  §4.2 gives its
    contract ([get] returns the live entry or nothing, [set] inserts or
    overwrites with the standard TTL, [flushAll] removes every entry);
    the byte estimate read back through [getStats] ([ksize], [vsize])
    and the synchronous [set] event follow the package: a key counts its
    length, an object value counts [objectValueSize = 80] per property,
    and an expired entry is deleted by the [get] that finds it.  The hit
    and miss counters, which the provider never reads, are left out, and
    so is the periodic sweep, which deletes only entries that [get]
    would no longer return.  Time is the millisecond clock, passed in as
    [now]. *)
Module NodeCache.

Record Wrapped : Type := { t : Z; v : ResolutionDetails }.

Record Stats : Type := { keys : Z; ksize : Z; vsize : Z }.

(** The one listener the provider registers: the closure of the
    constructor over [cacheMaxBytes]. *)
Inductive Listener : Type := BustOnSize (cacheMaxBytes : Z).

Record NodeCache : Type := {
  data : gmap string Wrapped;
  stats : Stats;
  stdTTL : Z;
  setListeners : list Listener
}.

Definition new (stdTTL : Z) : NodeCache :=
  {| data := ∅; stats := {| keys := 0; ksize := 0; vsize := 0 |};
     stdTTL := stdTTL; setListeners := [] |}.

Definition addListener (l : Listener) (c : NodeCache) : NodeCache :=
  {| data := data c; stats := stats c; stdTTL := stdTTL c;
     setListeners := setListeners c ++ [l] |}.

Definition getStats (c : NodeCache) : Stats := stats c.

Definition objectValueSize : Z := 80.

(** Number of own properties of a stored result object. *)
Definition _size (value : ResolutionDetails) : Z :=
  2 + (if variant value is Some _ then 1 else 0)
    + (if errorCode value is Some _ then 1 else 0).

Definition _getValLength (value : ResolutionDetails) : Z :=
  objectValueSize * _size value.

Definition _getKeyLength (key : string) : Z := Z.of_nat (String.length key).

Definition _wrap (value : ResolutionDetails) (ttl now : Z) : Wrapped :=
  {| t := if ttl =? 0 then 0 else now + ttl * 1000; v := value |}.

Definition flushAll (c : NodeCache) : NodeCache :=
  {| data := ∅; stats := {| keys := 0; ksize := 0; vsize := 0 |};
     stdTTL := stdTTL c; setListeners := setListeners c |}.

Definition del (key : string) (c : NodeCache) : NodeCache :=
  match data c !! key with
  | Some w =>
      {| data := delete key (data c);
         stats := {| keys := keys (stats c) - 1;
                     ksize := ksize (stats c) - _getKeyLength key;
                     vsize := vsize (stats c) - _getValLength (v w) |};
         stdTTL := stdTTL c; setListeners := setListeners c |}
  | None => c
  end.

(** [false] when the entry has outlived its deadline; the entry is then
    deleted ([deleteOnExpire]). *)
Definition _check (key : string) (w : Wrapped) (now : Z) (c : NodeCache)
  : bool * NodeCache :=
  if negb (t w =? 0) && (t w <? now) then (false, del key c) else (true, c).

Definition get (key : string) (now : Z) (c : NodeCache)
  : option ResolutionDetails * NodeCache :=
  match data c !! key with
  | Some w =>
      let '(live, c') := _check key w now c in
      if live then (Some (v w), c') else (None, c')
  | None => (None, c)
  end.

(** [Object.keys(this.data)]: expired entries are listed too. *)
Definition keysOf (c : NodeCache) : list string := (map_to_list (data c)).*1.

Definition runListener (c : NodeCache) (l : Listener) : NodeCache :=
  match l with
  | BustOnSize cacheMaxBytes =>
      let s := getStats c in
      if ksize s + vsize s >? cacheMaxBytes then flushAll c else c
  end.

(** The store after the insertion and before the [set] event. *)
Definition store (key : string) (value : ResolutionDetails) (now : Z)
    (c : NodeCache) : NodeCache :=
  let ttl := stdTTL c in
  let existent := data c !! key in
  let vsize0 :=
    match existent with
    | Some w => vsize (stats c) - _getValLength (v w)
    | None => vsize (stats c)
    end in
  {| data := <[key := _wrap value ttl now]> (data c);
     stats :=
       {| keys := if existent is Some _ then keys (stats c)
                  else keys (stats c) + 1;
          ksize := if existent is Some _ then ksize (stats c)
                   else ksize (stats c) + _getKeyLength key;
          vsize := vsize0 + _getValLength value |};
     stdTTL := stdTTL c; setListeners := setListeners c |}.

(** [set] stores, then emits the [set] event to the listeners, which
    run before [set] returns. *)
Definition set (key : string) (value : ResolutionDetails) (now : Z)
    (c : NodeCache) : NodeCache :=
  let c' := store key value now c in
  fold_left runListener (setListeners c') c'.

(** Key bytes and value bytes summed over the entries of the store: the
    quantity that [ksize + vsize] estimates. *)
Definition entriesSize (m : gmap string Wrapped) : Z :=
  map_fold (fun key w acc => acc + (_getKeyLength key + _getValLength (v w)))
           0 m.

Definition aggregateSize (c : NodeCache) : Z := entriesSize (data c).

(** The counters agree with the entries. *)
Definition statsExact (c : NodeCache) : Prop :=
  ksize (stats c) + vsize (stats c) = aggregateSize c
  ∧ keys (stats c) = Z.of_nat (size (data c)).

End NodeCache.

(** ** Configuration *)

Module Configuration.

Record Config : Type := {
  host : string;
  port : Z;
  tls : bool;
  maxRetries : Z;
  cache : bool;
  cacheTTL : Z;
  cacheMaxBytes : Z
}.

(** [Partial<Config>]: every property may be absent. *)
Record FlagdProviderOptions : Type := {
  o_host : option string;
  o_port : option Z;
  o_tls : option bool;
  o_maxRetries : option Z;
  o_cache : option bool;
  o_cacheTTL : option Z;
  o_cacheMaxBytes : option Z
}.

Definition noOptions : FlagdProviderOptions :=
  {| o_host := None; o_port := None; o_tls := None; o_maxRetries := None;
     o_cache := None; o_cacheTTL := None; o_cacheMaxBytes := None |}.

Definition DEFAULT_CONFIG : Config :=
  {| host := "localhost"; port := 8013; tls := false; cache := false;
     cacheTTL := 0; cacheMaxBytes := 0; maxRetries := 5 |}.

(** [{...DEFAULT_CONFIG, ...options}] *)
Definition getConfig (options : FlagdProviderOptions) : Config :=
  {| host := default (host DEFAULT_CONFIG) (o_host options);
     port := default (port DEFAULT_CONFIG) (o_port options);
     tls := default (tls DEFAULT_CONFIG) (o_tls options);
     maxRetries := default (maxRetries DEFAULT_CONFIG) (o_maxRetries options);
     cache := default (cache DEFAULT_CONFIG) (o_cache options);
     cacheTTL := default (cacheTTL DEFAULT_CONFIG) (o_cacheTTL options);
     cacheMaxBytes :=
       default (cacheMaxBytes DEFAULT_CONFIG) (o_cacheMaxBytes options) |}.

End Configuration.

(** ** The remote service, at its boundary *)

(** An evaluation context: the own properties of the object in
    enumeration order. *)
Definition EvaluationContext : Type := list (string * JsonValue).

(** [google.protobuf.Struct].  [Struct.fromJsonString (JSON.stringify o)]
    reads the properties of [o] back in the order they were written, and
    [toJson], which [JSON.stringify] calls on a message, writes the
    fields out in that order again. *)
Module Struct.
Record Struct : Type := { fields : list (string * JsonValue) }.
Definition fromJson (o : list (string * JsonValue)) : Struct :=
  {| fields := o |}.
Definition toJson (s : Struct) : JsonValue := JObject (fields s).
End Struct.

Module Connect.

(** [Code] of connect-web. *)
Inductive Code : Type :=
| Canceled | Unknown | InvalidArgument | DeadlineExceeded | NotFound
| AlreadyExists | PermissionDenied | ResourceExhausted | FailedPrecondition
| Aborted | OutOfRange | Unimplemented | Internal | Unavailable | DataLoss
| Unauthenticated.

(** [Partial<ConnectError>]: what the [catch] handler reads of a
    rejection. *)
Record ConnectError : Type := { code : option Code }.

(** How a remote call ends. *)
Inductive Outcome (R : Type) : Type :=
| Fulfilled (res : R)
| Rejected (err : ConnectError).
Arguments Fulfilled {R} res.
Arguments Rejected {R} err.

Record ResolveRequest : Type := {
  flagKey : string;
  context : Struct.Struct
}.

Record ResolveResponse (T : Type) : Type := {
  res_value : T;
  res_reason : string;
  res_variant : string
}.
Arguments res_value {T} _.
Arguments res_reason {T} _.
Arguments res_variant {T} _.

(** The unary operations of the service (§6).  An object response may
    carry no value. *)
Record PromiseClient : Type := {
  resolveBoolean : ResolveRequest -> Outcome (ResolveResponse bool);
  resolveString : ResolveRequest -> Outcome (ResolveResponse string);
  resolveFloat : ResolveRequest -> Outcome (ResolveResponse Z);
  resolveObject :
    ResolveRequest -> Outcome (ResolveResponse (option Struct.Struct))
}.

(** A message of the event stream. *)
Record EventStreamResponse : Type := {
  type : string;
  data : option Struct.Struct
}.

End Connect.

(** ** The provider *)

Module Provider.
Import Connect.

Definition ERROR_DISABLED : string := "DISABLED".
Definition EVENT_CONFIGURATION_CHANGE : string := "configuration_change".
Definition EVENT_PROVIDER_READY : string := "provider_ready".
Definition ERROR_CONNECTION_ERROR : string := "CONNECTION_ERROR".

(** [ErrorCode] and [StandardResolutionReasons] of the OpenFeature SDK,
    string enums whose members are their own names. *)
Module ErrorCode.
Definition PROVIDER_NOT_READY : string := "PROVIDER_NOT_READY".
Definition FLAG_NOT_FOUND : string := "FLAG_NOT_FOUND".
Definition PARSE_ERROR : string := "PARSE_ERROR".
Definition TYPE_MISMATCH : string := "TYPE_MISMATCH".
Definition GENERAL : string := "GENERAL".
End ErrorCode.

Module StandardResolutionReasons.
Definition ERROR : string := "ERROR".
End StandardResolutionReasons.

(** The subscription opened by [initStream (i, maxRetries)]: open with
    its two callbacks waiting, inside the [setTimeout] of the close
    callback, or finished. *)
Inductive Stream : Type :=
| Open (i maxRetries : Z)
| Retrying (i maxRetries : Z) (delay : Q)
| Closed.

Record RemoteCall : Type := { method : string; request : ResolveRequest }.

(** The fields of the class, followed by what a test double of the
    transport and of the timer records: the number of [eventStream]
    subscriptions, the delays passed to [setTimeout], and the unary
    calls issued. *)
Record FlagdWebProvider : Type := {
  cache : NodeCache.NodeCache;
  cacheActive : bool;
  providerReady : bool;
  connectionError : bool;
  stream : Stream;
  eventStreamCalls : Z;
  timeouts : list Q;
  remoteCalls : list RemoteCall
}.

Definition setCache (c : NodeCache.NodeCache) (p : FlagdWebProvider)
  : FlagdWebProvider :=
  {| cache := c; cacheActive := cacheActive p;
     providerReady := providerReady p; connectionError := connectionError p;
     stream := stream p; eventStreamCalls := eventStreamCalls p;
     timeouts := timeouts p; remoteCalls := remoteCalls p |}.

Definition setProviderReady (b : bool) (p : FlagdWebProvider)
  : FlagdWebProvider :=
  {| cache := cache p; cacheActive := cacheActive p;
     providerReady := b; connectionError := connectionError p;
     stream := stream p; eventStreamCalls := eventStreamCalls p;
     timeouts := timeouts p; remoteCalls := remoteCalls p |}.

Definition setConnectionError (b : bool) (p : FlagdWebProvider)
  : FlagdWebProvider :=
  {| cache := cache p; cacheActive := cacheActive p;
     providerReady := providerReady p; connectionError := b;
     stream := stream p; eventStreamCalls := eventStreamCalls p;
     timeouts := timeouts p; remoteCalls := remoteCalls p |}.

Definition setStream (s : Stream) (p : FlagdWebProvider) : FlagdWebProvider :=
  {| cache := cache p; cacheActive := cacheActive p;
     providerReady := providerReady p; connectionError := connectionError p;
     stream := s; eventStreamCalls := eventStreamCalls p;
     timeouts := timeouts p; remoteCalls := remoteCalls p |}.

Definition setTimeout (delay : Q) (p : FlagdWebProvider) : FlagdWebProvider :=
  {| cache := cache p; cacheActive := cacheActive p;
     providerReady := providerReady p; connectionError := connectionError p;
     stream := stream p; eventStreamCalls := eventStreamCalls p;
     timeouts := timeouts p ++ [delay]; remoteCalls := remoteCalls p |}.

Definition logCall (name : string) (req : ResolveRequest)
    (p : FlagdWebProvider) : FlagdWebProvider :=
  {| cache := cache p; cacheActive := cacheActive p;
     providerReady := providerReady p; connectionError := connectionError p;
     stream := stream p; eventStreamCalls := eventStreamCalls p;
     timeouts := timeouts p;
     remoteCalls := remoteCalls p ++ [{| method := name; request := req |}] |}.

(** *** The event stream *)

(** [this.callbackClient.eventStream ({}, onMessage, onClose)] *)
Definition initStream (i maxRetries : Z) (p : FlagdWebProvider)
  : FlagdWebProvider :=
  {| cache := cache p; cacheActive := cacheActive p;
     providerReady := providerReady p; connectionError := connectionError p;
     stream := Open i maxRetries;
     eventStreamCalls := eventStreamCalls p + 1;
     timeouts := timeouts p; remoteCalls := remoteCalls p |}.

(** [s.split (sep)[0]]: the part of [s] before the first occurrence of
    [sep], all of [s] when there is none. *)
Fixpoint splitHead (sep s : string) : string :=
  match s with
  | "" => ""
  | String c s' =>
      if String.prefix sep s then "" else String c (splitHead sep s')
  end.

(** [x === s] for a property read [x] and a string [s]. *)
Definition strictEqualsString (x : option JsonValue) (s : string) : bool :=
  match x with
  | Some (JString s') => String.eqb s' s
  | _ => false
  end.

(** One turn of the loop over [this.cache.keys ()]; the state is
    [(deleted, cache)]. *)
Definition bustKey (flagKey : option JsonValue)
    (st : Z * NodeCache.NodeCache) (key : string) : Z * NodeCache.NodeCache :=
  let prefix := splitHead "--" key in
  if strictEqualsString flagKey prefix
  then (fst st + 1, NodeCache.del key (snd st))
  else st.

Definition bustFlag (flagKey : option JsonValue) (c : NodeCache.NodeCache)
  : Z * NodeCache.NodeCache :=
  fold_left (bustKey flagKey) (NodeCache.keysOf c) (0, c).

(** The message callback.  [message.data?.toJsonString ()] is
    [undefined] exactly when the message has no data; otherwise
    [JSON.parse] gives back the object the Struct holds, and
    [body.flagKey] is a property read on it. *)
Definition onMessage (message : EventStreamResponse) (p : FlagdWebProvider)
  : FlagdWebProvider :=
  if String.eqb (type message) EVENT_PROVIDER_READY then
    setProviderReady true p
  else if String.eqb (type message) EVENT_CONFIGURATION_CHANGE then
    match data message with
    | None => setCache (NodeCache.flushAll (cache p)) p
    | Some s =>
        let body := Struct.fields s in
        let '(deleted, c) := bustFlag (getField "flagKey" body) (cache p) in
        setCache c p
    end
  else p.

(** [(i+1) * Math.random () * 300] *)
Definition retryDelay (i : Z) (random : Q) : Q :=
  (inject_Z (i + 1) * random * 300)%Q.

(** The close callback of the subscription opened by
    [initStream (i, maxRetries)], up to its [await]. *)
Definition onClose (i maxRetries : Z) (random : Q) (p : FlagdWebProvider)
  : FlagdWebProvider :=
  if negb (i =? maxRetries) then
    let delay := retryDelay i random in
    setStream (Retrying i maxRetries delay) (setTimeout delay p)
  else
    setStream Closed (setConnectionError true p).

(** The rest of the close callback, run when the timer fires. *)
Definition onTimeout (i maxRetries : Z) (p : FlagdWebProvider)
  : FlagdWebProvider :=
  initStream (i + 1) maxRetries p.

(** [new FlagdWebProvider (options)] *)
Definition new (options : Configuration.FlagdProviderOptions)
  : FlagdWebProvider :=
  let cfg := Configuration.getConfig options in
  let cache0 := NodeCache.new (Configuration.cacheTTL cfg) in
  let cache1 :=
    if negb (Configuration.cacheMaxBytes cfg =? 0)
    then NodeCache.addListener
           (NodeCache.BustOnSize (Configuration.cacheMaxBytes cfg)) cache0
    else cache0 in
  initStream 0 (Configuration.maxRetries cfg)
    {| cache := cache1; cacheActive := Configuration.cache cfg;
       providerReady := false; connectionError := false;
       stream := Closed; eventStreamCalls := 0;
       timeouts := []; remoteCalls := [] |}.

(** *** Resolution *)

Definition ErrorResponse (err : ConnectError) : string :=
  match code err with
  | Some NotFound => ErrorCode.FLAG_NOT_FOUND
  | Some InvalidArgument => ErrorCode.TYPE_MISMATCH
  | Some Unavailable => ERROR_DISABLED
  | Some DataLoss => ErrorCode.PARSE_ERROR
  | _ => ErrorCode.GENERAL
  end.

(** What a resolution method returns: a promise already resolved, or
    the promise of a remote call with its [then]/[catch] handlers, which
    run on the provider as it is when the call settles, at time
    [later].  A settled value [None] is JavaScript's [undefined]. *)
Inductive Promise (A : Type) : Type :=
| Resolved (a : A)
| Pending (R : Type) (call : PromiseClient -> ResolveRequest -> Outcome R)
    (req : ResolveRequest)
    (handlers : Outcome R -> Z -> FlagdWebProvider -> A * FlagdWebProvider).
Arguments Resolved {A} a.
Arguments Pending {A R} call req handlers.

Definition Resolution : Type := Promise (option ResolutionDetails).

(** The request object and the cache key built from it. *)
Definition makeRequest (flagKey : string) (transformedContext : EvaluationContext)
  : ResolveRequest :=
  {| flagKey := flagKey; context := Struct.fromJson transformedContext |}.

Definition reqHashOf (req : ResolveRequest) : string :=
  flagKey req +:+ "--"
  +:+ Md5.hashStr (stringify (Struct.toJson (context req))).

(** The fingerprint of a flag key and a context. *)
Definition fingerprint (flagKey : string) (transformedContext : EvaluationContext)
  : string :=
  reqHashOf (makeRequest flagKey transformedContext).

(** The result of the readiness gate. *)
Definition notReady (defaultValue : FlagValue) (p : FlagdWebProvider)
  : ResolutionDetails :=
  {| value := defaultValue;
     reason := StandardResolutionReasons.ERROR;
     errorCode :=
       Some (if connectionError p then ERROR_CONNECTION_ERROR
             else ErrorCode.PROVIDER_NOT_READY);
     variant := None |}.

(** The [catch] handler. *)
Definition onRejected (defaultValue : FlagValue) (err : ConnectError)
  : ResolutionDetails :=
  {| reason := StandardResolutionReasons.ERROR;
     errorCode := Some (ErrorResponse err);
     value := defaultValue;
     variant := None |}.

(** The [then] and [catch] handlers of a remote call.  [valueOf] gives
    the value of the response, or [None] for an object response without
    one, which is answered with the default value and not stored. *)
Definition handlers {T : Type} (valueOf : T -> option FlagValue)
    (reqHash : string) (defaultValue : FlagValue)
    (o : Outcome (ResolveResponse T)) (later : Z) (p : FlagdWebProvider)
  : option ResolutionDetails * FlagdWebProvider :=
  match o with
  | Fulfilled res =>
      match valueOf (res_value res) with
      | Some val =>
          let resDetails :=
            {| value := val; reason := res_reason res;
               variant := Some (res_variant res); errorCode := None |} in
          (Some resDetails,
           if cacheActive p
           then setCache (NodeCache.set reqHash resDetails later (cache p)) p
           else p)
      | None =>
          (Some {| value := defaultValue; reason := res_reason res;
                   variant := Some (res_variant res); errorCode := None |}, p)
      end
  | Rejected err => (Some (onRejected defaultValue err), p)
  end.

(** The body shared by the four resolution methods, which differ in the
    remote operation they call and in how they read the response.  Each
    [this.cache.get (reqHash)] reads the clock itself: [now] is the
    reading of the lookup in the test and [now'] that of the lookup whose
    result is returned.  An entry that is live at the first and has
    expired at the second is deleted, and the call resolves to
    [undefined] without a remote call. *)
Definition resolveEvaluation {T : Type}
    (name : string)
    (call : PromiseClient -> ResolveRequest -> Outcome (ResolveResponse T))
    (valueOf : T -> option FlagValue)
    (flagKey : string) (defaultValue : FlagValue)
    (transformedContext : EvaluationContext) (now now' : Z)
    (p : FlagdWebProvider)
  : Resolution * FlagdWebProvider :=
  if negb (providerReady p) then (Resolved (Some (notReady defaultValue p)), p)
  else
    let req := makeRequest flagKey transformedContext in
    let reqHash := reqHashOf req in
    let '(hit, p1) :=
      if cacheActive p then
        let '(r, c) := NodeCache.get reqHash now (cache p) in
        (if r is Some _ then true else false, setCache c p)
      else (false, p) in
    if hit then
      let '(r, c) := NodeCache.get reqHash now' (cache p1) in
      (Resolved r, setCache c p1)
    else
      (Pending call req (handlers valueOf reqHash defaultValue),
       logCall name req p1).

(** How each method reads the value of its response; only an object
    response can come without one ([if (res.value)]). *)
Definition booleanValue (b : bool) : option FlagValue := Some (VBoolean b).
Definition stringValue (s : string) : option FlagValue := Some (VString s).
Definition numberValue (n : Z) : option FlagValue := Some (VNumber n).
Definition objectValue (v : option Struct.Struct) : option FlagValue :=
  (fun s => VObject (Struct.toJson s)) <$> v.

Definition resolveBooleanEvaluation (flagKey : string) (defaultValue : bool)
  : EvaluationContext -> Z -> Z -> FlagdWebProvider
    -> Resolution * FlagdWebProvider :=
  resolveEvaluation "resolveBoolean" resolveBoolean booleanValue
    flagKey (VBoolean defaultValue).

Definition resolveStringEvaluation (flagKey : string) (defaultValue : string)
  : EvaluationContext -> Z -> Z -> FlagdWebProvider
    -> Resolution * FlagdWebProvider :=
  resolveEvaluation "resolveString" resolveString stringValue
    flagKey (VString defaultValue).

Definition resolveNumberEvaluation (flagKey : string) (defaultValue : Z)
  : EvaluationContext -> Z -> Z -> FlagdWebProvider
    -> Resolution * FlagdWebProvider :=
  resolveEvaluation "resolveFloat" resolveFloat numberValue
    flagKey (VNumber defaultValue).

Definition resolveObjectEvaluation (flagKey : string) (defaultValue : JsonValue)
  : EvaluationContext -> Z -> Z -> FlagdWebProvider
    -> Resolution * FlagdWebProvider :=
  resolveEvaluation "resolveObject" resolveObject objectValue
    flagKey (VObject defaultValue).

(** A call of one of the four methods. *)
Inductive Call : Type :=
| CallBoolean (flagKey : string) (defaultValue : bool)
    (transformedContext : EvaluationContext)
| CallString (flagKey : string) (defaultValue : string)
    (transformedContext : EvaluationContext)
| CallNumber (flagKey : string) (defaultValue : Z)
    (transformedContext : EvaluationContext)
| CallObject (flagKey : string) (defaultValue : JsonValue)
    (transformedContext : EvaluationContext).

Definition invoke (c : Call)
  : Z -> Z -> FlagdWebProvider -> Resolution * FlagdWebProvider :=
  match c with
  | CallBoolean k d ctx => resolveBooleanEvaluation k d ctx
  | CallString k d ctx => resolveStringEvaluation k d ctx
  | CallNumber k d ctx => resolveNumberEvaluation k d ctx
  | CallObject k d ctx => resolveObjectEvaluation k d ctx
  end.

Definition callKey (c : Call) : string :=
  match c with
  | CallBoolean k _ ctx | CallString k _ ctx
  | CallNumber k _ ctx | CallObject k _ ctx => fingerprint k ctx
  end.

Definition callDefault (c : Call) : FlagValue :=
  match c with
  | CallBoolean _ d _ => VBoolean d
  | CallString _ d _ => VString d
  | CallNumber _ d _ => VNumber d
  | CallObject _ d _ => VObject d
  end.

(** The handlers that the promise of call [c] carries, applied to the
    answer of the remote operation. *)
Definition settle (c : Call) (client : PromiseClient)
  : Z -> FlagdWebProvider -> option ResolutionDetails * FlagdWebProvider :=
  match c with
  | CallBoolean k d ctx =>
      handlers booleanValue (fingerprint k ctx) (VBoolean d)
        (resolveBoolean client (makeRequest k ctx))
  | CallString k d ctx =>
      handlers stringValue (fingerprint k ctx) (VString d)
        (resolveString client (makeRequest k ctx))
  | CallNumber k d ctx =>
      handlers numberValue (fingerprint k ctx) (VNumber d)
        (resolveFloat client (makeRequest k ctx))
  | CallObject k d ctx =>
      handlers objectValue (fingerprint k ctx) (VObject d)
        (resolveObject client (makeRequest k ctx))
  end.

(** The error with which the remote operation of call [c] rejects, if
    it does. *)
Definition rejection (c : Call) (client : PromiseClient) : option ConnectError :=
  let rejected {R} (o : Outcome R) :=
    match o with Rejected err => Some err | Fulfilled _ => None end in
  match c with
  | CallBoolean k _ ctx => rejected (resolveBoolean client (makeRequest k ctx))
  | CallString k _ ctx => rejected (resolveString client (makeRequest k ctx))
  | CallNumber k _ ctx => rejected (resolveFloat client (makeRequest k ctx))
  | CallObject k _ ctx => rejected (resolveObject client (makeRequest k ctx))
  end.

Definition isPending {A : Type} (pr : Promise A) : bool :=
  match pr with Pending _ _ _ => true | Resolved _ => false end.

(** The promise settles: the remote operation answers through [client]
    and the handlers run. *)
Definition await {A : Type} (client : PromiseClient) (later : Z)
    (pr : Promise A) (p : FlagdWebProvider) : A * FlagdWebProvider :=
  match pr with
  | Resolved a => (a, p)
  | Pending call req k => k (call client req) later p
  end.

(** *** The provider as a transition system *)

(** What can happen to an instance: a message or the end of the open
    subscription, the retry timer firing, a resolution call with the
    clock readings of its two lookups, and the answer to a call issued
    earlier, whose handlers run on the provider as it then is. *)
Inductive Event : Type :=
| Message (message : EventStreamResponse)
| Close (random : Q)
| Timeout
| Resolve (c : Call) (now now' : Z)
| Settle (c : Call) (client : PromiseClient) (later : Z).

(** [None]: the event cannot happen in this state. *)
Definition step (p : FlagdWebProvider) (e : Event) : option FlagdWebProvider :=
  match e, stream p with
  | Message m, Open _ _ => Some (onMessage m p)
  | Close random, Open i maxRetries => Some (onClose i maxRetries random p)
  | Timeout, Retrying i maxRetries _ => Some (onTimeout i maxRetries p)
  | Resolve c now now', _ => Some (snd (invoke c now now' p))
  | Settle c client later, _ => Some (snd (settle c client later p))
  | _, _ => None
  end.

Fixpoint run (p : FlagdWebProvider) (es : list Event) : option FlagdWebProvider :=
  match es with
  | [] => Some p
  | e :: es' =>
      match step p e with
      | Some p' => run p' es'
      | None => None
      end
  end.

End Provider.

(** ** Vocabulary of the specification *)

Module Spec.
Import Provider.

(** Two contexts hold the same key/value pairs, in whatever order they
    were built. *)
Definition sameContent (c1 c2 : EvaluationContext) : Prop :=
  NoDup c1.*1 ∧ c1 ≡ₚ c2.

(** The separator does not occur in a flag key, and the key does not end
    in a dash that would join the separator that follows it. *)
Fixpoint sepFree (s : string) : bool :=
  match s with
  | "" => true
  | String c s' =>
      match s' with
      | "" => negb (Ascii.eqb c "-")
      | String c' _ =>
          negb (Ascii.eqb c "-" && Ascii.eqb c' "-") && sepFree s'
      end
  end.

(** A [configuration_change] message for one flag. *)
Definition configurationChange (type source flagKey : string)
  : Connect.EventStreamResponse :=
  {| Connect.type := EVENT_CONFIGURATION_CHANGE;
     Connect.data :=
       Some {| Struct.fields :=
                 [("type", JString type); ("source", JString source);
                  ("flagKey", JString flagKey)] |} |}.

(** An environment in which every connection attempt fails: each open
    subscription is closed, with [random i] the jitter drawn after
    attempt [i], and each retry timer fires, until the provider opens
    no further subscription. *)
Fixpoint allAttemptsFail (fuel : nat) (random : Z -> Q) (p : FlagdWebProvider)
  : option FlagdWebProvider :=
  match stream p with
  | Closed => Some p
  | Open i _ =>
      match fuel with
      | O => None
      | S fuel' => step p (Close (random i)) ≫= allAttemptsFail fuel' random
      end
  | Retrying _ _ _ =>
      match fuel with
      | O => None
      | S fuel' => step p Timeout ≫= allAttemptsFail fuel' random
      end
  end.


(** The request and the name of the remote operation of a call. *)
Definition callRequest (c : Call) : Connect.ResolveRequest :=
  match c with
  | CallBoolean k _ ctx | CallString k _ ctx
  | CallNumber k _ ctx | CallObject k _ ctx => makeRequest k ctx
  end.

Definition callName (c : Call) : string :=
  match c with
  | CallBoolean _ _ _ => "resolveBoolean"
  | CallString _ _ _ => "resolveString"
  | CallNumber _ _ _ => "resolveFloat"
  | CallObject _ _ _ => "resolveObject"
  end.

(** The provider after the cache lookup of a call that found nothing
    under [key]. *)
Definition afterLookup (key : string) (now : Z) (p : FlagdWebProvider)
  : FlagdWebProvider :=
  if cacheActive p
  then setCache (snd (NodeCache.get key now (cache p))) p
  else p.

(** The retries are exhausted: the last subscription has ended and no
    other will be opened. *)
Definition exhausted (p : FlagdWebProvider) : bool :=
  match stream p with Closed => true | _ => false end.

(** [q] differs from [p] at most in the cache and in the log of remote
    calls. *)
Definition sameControl (p q : FlagdWebProvider) : Prop :=
  cacheActive q = cacheActive p ∧ providerReady q = providerReady p
  ∧ connectionError q = connectionError p ∧ stream q = stream p
  ∧ eventStreamCalls q = eventStreamCalls p ∧ timeouts q = timeouts p.

(** The listeners that the constructor registers for a byte limit. *)
Definition listenersFor (cacheMaxBytes : Z) : list NodeCache.Listener :=
  if negb (cacheMaxBytes =? 0) then [NodeCache.BustOnSize cacheMaxBytes] else [].

(** The cache of a provider built with the byte limit [cacheMaxBytes]:
    its counters are exact and its listeners are the constructor's. *)
Definition cacheInv (cacheMaxBytes : Z) (p : FlagdWebProvider) : Prop :=
  NodeCache.statsExact (cache p)
  ∧ NodeCache.setListeners (cache p) = listenersFor cacheMaxBytes.

End Spec.

(** ** Test doubles and sample data *)

Module Examples.
Import Connect Provider Spec.

Definition withCache : Configuration.FlagdProviderOptions :=
  {| Configuration.o_host := None; Configuration.o_port := None;
     Configuration.o_tls := None; Configuration.o_maxRetries := Some 1;
     Configuration.o_cache := Some true; Configuration.o_cacheTTL := None;
     Configuration.o_cacheMaxBytes := None |}.

Definition withLimit (cacheMaxBytes : Z) : Configuration.FlagdProviderOptions :=
  {| Configuration.o_host := None; Configuration.o_port := None;
     Configuration.o_tls := None; Configuration.o_maxRetries := Some 1;
     Configuration.o_cache := Some true; Configuration.o_cacheTTL := None;
     Configuration.o_cacheMaxBytes := Some cacheMaxBytes |}.

Definition withRetries (maxRetries : Z) : Configuration.FlagdProviderOptions :=
  {| Configuration.o_host := None; Configuration.o_port := None;
     Configuration.o_tls := None; Configuration.o_maxRetries := Some maxRetries;
     Configuration.o_cache := None; Configuration.o_cacheTTL := None;
     Configuration.o_cacheMaxBytes := None |}.

Definition providerReadyMessage : EventStreamResponse :=
  {| type := EVENT_PROVIDER_READY; data := None |}.

(** A caching provider that has received [provider_ready]. *)
Definition ready : FlagdWebProvider := onMessage providerReadyMessage (new withCache).

Definition answer {T : Type} (val : T) : ResolveResponse T :=
  {| res_value := val; res_reason := "STATIC"; res_variant := "on" |}.

(** A service on which every flag resolves. *)
Definition staticClient : PromiseClient :=
  {| resolveBoolean := fun _ => Fulfilled (answer true);
     resolveString := fun _ => Fulfilled (answer "blue");
     resolveFloat := fun _ => Fulfilled (answer 7);
     resolveObject := fun _ => Fulfilled (answer (Some (Struct.fromJson []))) |}.

(** A service that cannot be reached. *)
Definition unavailableClient : PromiseClient :=
  let err := {| code := Some Unavailable |} in
  {| resolveBoolean := fun _ => Rejected err;
     resolveString := fun _ => Rejected err;
     resolveFloat := fun _ => Rejected err;
     resolveObject := fun _ => Rejected err |}.

Definition flagA : Call := CallBoolean "flag-a" false [].

Definition stored : ResolutionDetails :=
  {| value := VBoolean true; reason := "STATIC"; variant := Some "on";
     errorCode := None |}.

(** [ready] after flag-a was resolved once through [staticClient]. *)
Definition warm : FlagdWebProvider :=
  snd (await staticClient 1 (fst (invoke flagA 0 0 ready)) (snd (invoke flagA 0 0 ready))).

(** A ready provider whose cache holds one entry for the flag [my] and
    one for the flag [my--other]. *)
Definition twoFlags : FlagdWebProvider :=
  setCache
    (NodeCache.set (fingerprint "my--other" []) stored 0
       (NodeCache.set (fingerprint "my" []) stored 0 (cache ready)))
    ready.

(** A [configuration_change] whose payload has no [flagKey]. *)
Definition changeWithoutFlagKey : EventStreamResponse :=
  {| type := EVENT_CONFIGURATION_CHANGE;
     data := Some {| Struct.fields :=
                       [("type", JString "write"); ("source", JString "file")] |} |}.

(** A [configuration_change] without payload. *)
Definition changeWithoutData : EventStreamResponse :=
  {| type := EVENT_CONFIGURATION_CHANGE; data := None |}.

End Examples.

(** ** Vocabulary for the life of an instance *)

Module Lifetime.
Import Connect Provider Spec.

(** How one transition changes the cache: not at all, by a flush, by the
    invalidation loop, by the lookup of a call, or by the [then] handler
    storing the result it built, which has a variant and no error
    code.  The last two need caching to be on. *)
Inductive cacheStep (active : bool)
  : NodeCache.NodeCache -> NodeCache.NodeCache -> Prop :=
| cs_same c : cacheStep active c c
| cs_flush c : cacheStep active c (NodeCache.flushAll c)
| cs_bust flagKey c : cacheStep active c (snd (bustFlag flagKey c))
| cs_get key now c :
    active = true -> cacheStep active c (snd (NodeCache.get key now c))
| cs_set key resDetails later c :
    active = true ->
    errorCode resDetails = None -> is_Some (variant resDetails) ->
    cacheStep active c (NodeCache.set key resDetails later c).

(** Every entry of the cache is the result of a successful remote
    call. *)
Definition entriesClean (c : NodeCache.NodeCache) : Prop :=
  ∀ key w, NodeCache.data c !! key = Some w ->
           errorCode (NodeCache.v w) = None
           ∧ is_Some (variant (NodeCache.v w)).

(** The retry budget [maxRetries] of an instance and what it has used:
    attempt [i] is the [i+1]-th subscription, and one timer was set
    after each failed attempt before it. *)
Definition budgetInv (maxRetries : Z) (p : FlagdWebProvider) : Prop :=
  match stream p with
  | Open i n =>
      n = maxRetries ∧ 0 ≤ i ≤ maxRetries ∧ eventStreamCalls p = i + 1
      ∧ Z.of_nat (length (timeouts p)) = i
  | Retrying i n _ =>
      n = maxRetries ∧ 0 ≤ i < maxRetries ∧ eventStreamCalls p = i + 1
      ∧ Z.of_nat (length (timeouts p)) = i + 1
  | Closed =>
      eventStreamCalls p = maxRetries + 1
      ∧ Z.of_nat (length (timeouts p)) = maxRetries
  end.

(** With a negative [maxRetries] the index never meets it. *)
Definition unboundedInv (p : FlagdWebProvider) : Prop :=
  connectionError p = false
  ∧ match stream p with
    | Open i n | Retrying i n _ => n < 0 ≤ i
    | Closed => False
    end.

(** The result that the [then] handler of call [c] builds and stores
    when the remote operation answers with a value. *)
Definition success (c : Call) (client : PromiseClient)
  : option ResolutionDetails :=
  let details {T} (valueOf : T -> option FlagValue)
        (o : Outcome (ResolveResponse T)) :=
    match o with
    | Fulfilled res =>
        (fun val => {| value := val; reason := res_reason res;
                       variant := Some (res_variant res);
                       errorCode := None |})
          <$> valueOf (res_value res)
    | Rejected _ => None
    end in
  match c with
  | CallBoolean k _ ctx =>
      details booleanValue (resolveBoolean client (makeRequest k ctx))
  | CallString k _ ctx =>
      details stringValue (resolveString client (makeRequest k ctx))
  | CallNumber k _ ctx =>
      details numberValue (resolveFloat client (makeRequest k ctx))
  | CallObject k _ ctx =>
      details objectValue (resolveObject client (makeRequest k ctx))
  end.

(** The sum of a list of delays. *)
Definition Qsum (l : list Q) : Q := fold_right Qplus 0%Q l.

(** Sample data. *)
Definition withTTL (cacheTTL : Z) : Configuration.FlagdProviderOptions :=
  {| Configuration.o_host := None; Configuration.o_port := None;
     Configuration.o_tls := None; Configuration.o_maxRetries := Some 1;
     Configuration.o_cache := Some true;
     Configuration.o_cacheTTL := Some cacheTTL;
     Configuration.o_cacheMaxBytes := None |}.

Definition flagAString : Call := CallString "flag-a" "none" [].

Definition flagObject : Call := CallObject "flag-o" JNull [].

(** A service whose object flags have no value. *)
Definition noValueClient : PromiseClient :=
  {| resolveBoolean := fun _ => Fulfilled (Examples.answer true);
     resolveString := fun _ => Fulfilled (Examples.answer "blue");
     resolveFloat := fun _ => Fulfilled (Examples.answer 7);
     resolveObject := fun _ => Fulfilled (Examples.answer None) |}.

End Lifetime.

(** * Properties *)

(** ** The models on known inputs *)

Module Sanity.
Import Connect Provider Spec Examples.

(** The test suite of RFC 1321. *)
Example md5_empty : Md5.hashStr "" = "d41d8cd98f00b204e9800998ecf8427e".
Proof. vm_compute. reflexivity. Qed.

Example md5_abc : Md5.hashStr "abc" = "900150983cd24fb0d6963f7d28e17f72".
Proof. vm_compute. reflexivity. Qed.

Example md5_two_blocks :
  Md5.hashStr
    "12345678901234567890123456789012345678901234567890123456789012345678901234567890"
  = "57edf4a22be3c955ac49da2e2107b67a".
Proof. vm_compute. reflexivity. Qed.

Example stringify_nested :
  stringify (JObject [("plan", JString "pro");
                      ("seats", JArray [JNumber 1; JNumber (-2); JNull]);
                      ("beta", JBool true); ("org", JObject [])])
  = "{" +:+ quote "plan" +:+ ":" +:+ quote "pro" +:+ ","
    +:+ quote "seats" +:+ ":[1,-2,null]," +:+ quote "beta" +:+ ":true,"
    +:+ quote "org" +:+ ":{}}".
Proof. vm_compute. reflexivity. Qed.

Example fingerprint_empty_context :
  fingerprint "flag-a" [] = "flag-a--99914b932bd37a50b983c5e7c90ae93b".
Proof. vm_compute. reflexivity. Qed.

Example splitHead_examples :
  splitHead "--" "flag-a--99914b93" = "flag-a"
  ∧ splitHead "--" "my--other--99914b93" = "my"
  ∧ splitHead "--" "a---99914b93" = "a"
  ∧ splitHead "--" "plain" = "plain".
Proof. repeat split; vm_compute; reflexivity. Qed.

(** A flag key that ends in a dash: its own entries have another prefix
    and outlive the notification for it. *)
Example trailing_dash_not_invalidated :
  sepFree "a-" = false
  ∧ NodeCache.data
      (cache (onMessage (configurationChange "write" "file" "a-")
                (setCache
                   (NodeCache.set (fingerprint "a-" []) stored 0 (cache ready))
                   ready)))
    !! fingerprint "a-" []
    = Some {| NodeCache.t := 0; NodeCache.v := stored |}.
Proof. split; vm_compute; reflexivity. Qed.

(** The end-to-end scenario of the specification: the second identical
    call is answered from the cache, and after a configuration change
    for the flag the third call goes to the remote service again. *)
Example end_to_end_scenario :
  fst (await staticClient 1 (fst (invoke flagA 0 0 ready)) (snd (invoke flagA 0 0 ready)))
  = Some stored
  ∧ length (remoteCalls warm) = 1%nat
  ∧ invoke flagA 2 2 warm = (Resolved (Some stored), warm)
  ∧ isPending
      (fst (invoke flagA 3 3
              (onMessage (configurationChange "write" "file" "flag-a") warm)))
    = true
  ∧ length
      (remoteCalls
         (snd (invoke flagA 3 3
                 (onMessage (configurationChange "write" "file" "flag-a") warm))))
    = 2%nat.
Proof. repeat split; vm_compute; reflexivity. Qed.

(** With a byte limit of 300 the first entry (40 key bytes and 240 value
    bytes) is kept and the second insertion empties the cache. *)
Example size_flush_example :
  NodeCache.stats
    (NodeCache.set (fingerprint "flag-a" []) stored 0 (cache (new (withLimit 300))))
  = {| NodeCache.keys := 1; NodeCache.ksize := 40; NodeCache.vsize := 240 |}
  ∧ NodeCache.data
      (NodeCache.set (fingerprint "flag-b" []) stored 0
         (NodeCache.set (fingerprint "flag-a" []) stored 0
            (cache (new (withLimit 300)))))
    = ∅.
Proof. split; vm_compute; reflexivity. Qed.

(** After the only attempt of a provider without retries has failed, a
    call is answered with CONNECTION_ERROR and nothing is sent. *)
Example not_ready_after_exhaustion :
  (fun p => (fst (invoke flagA 0 0 p), remoteCalls (snd (invoke flagA 0 0 p))))
    <$> run (new (withRetries 0)) [Close (1 # 2)]
  = Some (Resolved
            (Some {| value := VBoolean false; reason := "ERROR";
                     errorCode := Some "CONNECTION_ERROR"; variant := None |}),
          []).
Proof. vm_compute. reflexivity. Qed.

(** The two lookups of a call read the clock one after the other: an
    entry stored at 1 with a TTL of 60 s that is live at the first
    lookup (60001) and expired at the second (60002) is removed, the
    call resolves to [undefined] and nothing is sent. *)
Example expiry_between_lookups :
  (fun r => (fst r, NodeCache.data (cache (snd r)) !! fingerprint "flag-a" [],
             length (remoteCalls (snd r))))
    (invoke flagA 60001 60002
       (snd (settle flagA staticClient 1
               (snd (invoke flagA 0 0
                       (onMessage providerReadyMessage (new (Lifetime.withTTL 60))))))))
  = (Resolved None, None, 1%nat).
Proof. vm_compute. reflexivity. Qed.

End Sanity.

(** ** The store *)

Module NodeCacheFacts.
Import NodeCache.

Lemma entriesSize_empty : entriesSize ∅ = 0.
Proof. unfold entriesSize. by rewrite map_fold_empty. Qed.

Lemma entriesSize_insert (m : gmap string Wrapped) key w :
  m !! key = None ->
  entriesSize (<[key:=w]> m)
  = entriesSize m + (_getKeyLength key + _getValLength (v w)).
Proof.
  intros Hfresh. unfold entriesSize.
  rewrite map_fold_insert_L; [done | intros; lia | done].
Qed.

Lemma entriesSize_delete (m : gmap string Wrapped) key w :
  m !! key = Some w ->
  entriesSize m
  = entriesSize (delete key m) + (_getKeyLength key + _getValLength (v w)).
Proof.
  intros Hin. unfold entriesSize.
  rewrite (map_fold_delete_L _ _ key w m); [done | intros; lia | done].
Qed.

Lemma data_del key key' c :
  data (del key c) !! key' = if decide (key = key') then None else data c !! key'.
Proof.
  unfold del. destruct (data c !! key) as [w|] eqn:Hk; simpl.
  - by rewrite lookup_delete.
  - case_decide; congruence.
Qed.

Lemma del_listeners key c : setListeners (del key c) = setListeners c.
Proof. unfold del. by destruct (data c !! key). Qed.

Lemma del_stdTTL key c : stdTTL (del key c) = stdTTL c.
Proof. unfold del. by destruct (data c !! key). Qed.

Lemma statsExact_new ttl : statsExact (new ttl).
Proof.
  split; simpl; [unfold aggregateSize; simpl; by rewrite entriesSize_empty | by rewrite map_size_empty].
Qed.

Lemma statsExact_flushAll c : statsExact (flushAll c).
Proof.
  split; simpl; [unfold aggregateSize; simpl; by rewrite entriesSize_empty | by rewrite map_size_empty].
Qed.

Lemma statsExact_addListener l c : statsExact c -> statsExact (addListener l c).
Proof. done. Qed.

Lemma statsExact_del key c : statsExact c -> statsExact (del key c).
Proof.
  intros [Hsz Hn]. unfold del.
  destruct (data c !! key) as [w|] eqn:Hk; [|done].
  split; unfold aggregateSize in *; simpl.
  - rewrite (entriesSize_delete _ key w Hk) in Hsz. lia.
  - rewrite map_size_delete, Hk. simpl.
    assert (size (data c) ≠ 0%nat).
    { intros Hz. apply map_size_empty_iff in Hz. rewrite Hz in Hk. done. }
    lia.
Qed.

Lemma statsExact_store key value now c :
  statsExact c -> statsExact (store key value now c).
Proof.
  intros [Hsz Hn]. unfold statsExact, aggregateSize in *. unfold store.
  destruct (data c !! key) as [w|] eqn:Hk; split; simpl.
  - rewrite <-(insert_delete_eq (data c)).
    rewrite entriesSize_insert by apply lookup_delete_eq.
    rewrite (entriesSize_delete _ key w Hk) in Hsz. simpl. lia.
  - rewrite map_size_insert, Hk. simpl. lia.
  - rewrite entriesSize_insert; [|done]. simpl. lia.
  - rewrite map_size_insert, Hk. simpl. lia.
Qed.

Lemma statsExact_runListener c l : statsExact c -> statsExact (runListener c l).
Proof.
  intros H. destruct l as [n]. simpl.
  destruct (_ >? n); [apply statsExact_flushAll | done].
Qed.

Lemma statsExact_listeners ls c :
  statsExact c -> statsExact (fold_left runListener ls c).
Proof.
  revert c. induction ls as [|l ls IH]; intros c H; simpl; [done|].
  by apply IH, statsExact_runListener.
Qed.

Lemma statsExact_set key value now c :
  statsExact c -> statsExact (set key value now c).
Proof. intros H. by apply statsExact_listeners, statsExact_store. Qed.

Lemma statsExact_get key now c : statsExact c -> statsExact (snd (get key now c)).
Proof.
  intros H. unfold get, _check.
  destruct (data c !! key) as [w|]; [|done].
  destruct (negb (t w =? 0) && (t w <? now)); simpl; [by apply statsExact_del | done].
Qed.

(** A live entry is returned as stored, and the store stays as it is. *)
Lemma get_Some key now c e :
  fst (get key now c) = Some e ->
  get key now c = (Some e, c) ∧ ∃ w, data c !! key = Some w ∧ v w = e.
Proof.
  unfold get, _check. destruct (data c !! key) as [w|]; [|done].
  destruct (negb (t w =? 0) && (t w <? now)); simpl; [done|].
  intros [= <-]. eauto.
Qed.

(** After a miss the key is absent. *)
Lemma get_None key now c :
  fst (get key now c) = None -> data (snd (get key now c)) !! key = None.
Proof.
  unfold get, _check. destruct (data c !! key) as [w|] eqn:Hk; [|done].
  destruct (negb (t w =? 0) && (t w <? now)); simpl; [|done].
  intros _. rewrite data_del. by case_decide.
Qed.

Lemma get_absent key now c : data c !! key = None -> get key now c = (None, c).
Proof. unfold get. by intros ->. Qed.

Lemma get_listeners key now c :
  setListeners (snd (get key now c)) = setListeners c.
Proof.
  unfold get, _check. destruct (data c !! key) as [w|]; [|done].
  destruct (negb (t w =? 0) && (t w <? now)); simpl; [apply del_listeners | done].
Qed.

Lemma listeners_keep ls c :
  setListeners (fold_left runListener ls c) = setListeners c.
Proof.
  revert c. induction ls as [|[n] ls IH]; intros c; simpl; [done|].
  rewrite IH. by destruct (_ >? n).
Qed.

Lemma set_listeners key value now c :
  setListeners (set key value now c) = setListeners c.
Proof. unfold set. by rewrite listeners_keep. Qed.

(** The listeners either leave the store as it is or leave it empty. *)
Lemma listeners_cases ls c :
  fold_left runListener ls c = c ∨ data (fold_left runListener ls c) = ∅.
Proof.
  revert c. induction ls as [|[n] ls IH]; intros c; simpl; [by left|].
  destruct (_ >? n).
  - right. destruct (IH (flushAll c)) as [-> | H]; done.
  - apply IH.
Qed.

End NodeCacheFacts.

(** ** The fingerprint *)

Module FingerprintFacts.
Import Provider Spec.

Lemma fingerprint_unfold k c :
  fingerprint k c = k +:+ "--" +:+ Md5.hashStr (stringify (JObject c)).
Proof. reflexivity. Qed.

(** C1 as stated fails: two contexts with the same two pairs, built in
    opposite orders, are serialised differently and get different cache
    keys. *)
Lemma fingerprint_order_sensitive :
  ¬ (∀ k c1 c2, sameContent c1 c2 -> fingerprint k c1 = fingerprint k c2).
Proof.
  intros H.
  assert (Hsame : sameContent
                    [("email", JString "a@b.c"); ("plan", JString "pro")]
                    [("plan", JString "pro"); ("email", JString "a@b.c")]).
  { split; [|apply perm_swap].
    apply NoDup_cons. split; [|apply NoDup_singleton].
    intros Hin. apply list_elem_of_singleton in Hin. discriminate Hin. }
  apply (H "flag-a") in Hsame. clear H.
  vm_compute in Hsame. discriminate Hsame.
Qed.

(** C1, amended: the cache key depends on the context only through its
    JSON text, which lists the properties in enumeration order; contexts
    with the same serialisation (the same key/value pairs in the same
    order) get the same cache key for every flag key. *)
Theorem fingerprint_deterministic k (c1 c2 : EvaluationContext) :
  stringify (JObject c1) = stringify (JObject c2) ->
  fingerprint k c1 = fingerprint k c2.
Proof. intros H. rewrite !fingerprint_unfold. by rewrite H. Qed.

Lemma fingerprint_deterministic_witness :
  fingerprint "flag-a" [("plan", JString "pro")]
  = fingerprint "flag-a" [("plan", JString "pro")].
Proof. apply fingerprint_deterministic. reflexivity. Defined.

Lemma prefix_sep_head rest : String.prefix "--" ("--" +:+ rest) = true.
Proof.
  cbn [String.prefix String.append].
  destruct (ascii_dec "-" "-"); [|congruence]. by destruct rest.
Qed.

Lemma prefix_sep_other c c' s :
  Ascii.eqb c "-" && Ascii.eqb c' "-" = false ->
  String.prefix "--" (String c (String c' s)) = false.
Proof.
  intros H. cbn [String.prefix].
  destruct (ascii_dec "-" c) as [<-|]; [|done].
  destruct (ascii_dec "-" c') as [<-|]; [|done]. done.
Qed.

Lemma splitHead_sep rest : splitHead "--" ("--" +:+ rest) = "".
Proof.
  change (splitHead "--" ("--" +:+ rest))
    with (if String.prefix "--" ("--" +:+ rest) then ""
          else String "-" (splitHead "--" (String "-" rest))).
  by rewrite prefix_sep_head.
Qed.

Lemma splitHead_cons c s :
  splitHead "--" (String c s)
  = if String.prefix "--" (String c s) then "" else String c (splitHead "--" s).
Proof. reflexivity. Qed.

(** The flag-key segment of the key of a well-formed flag key is that
    flag key. *)
Lemma splitHead_sepFree A rest :
  sepFree A = true -> splitHead "--" (A +:+ "--" +:+ rest) = A.
Proof.
  induction A as [|c A IH]; intros Hfree; [apply splitHead_sep|].
  change (String c A +:+ "--" +:+ rest) with (String c (A +:+ "--" +:+ rest)).
  rewrite splitHead_cons.
  destruct A as [|c' A'].
  - change ("" +:+ "--" +:+ rest) with (String "-" (String "-" rest)).
    rewrite prefix_sep_other.
    + f_equal. apply splitHead_sep.
    + cbn [sepFree] in Hfree. apply negb_true_iff in Hfree.
      rewrite Hfree. done.
  - change (sepFree (String c (String c' A')))
      with (negb (Ascii.eqb c "-" && Ascii.eqb c' "-")
            && sepFree (String c' A')) in Hfree.
    apply andb_true_iff in Hfree as [Hcc Hrest].
    rewrite (IH Hrest).
    change (String c' A' +:+ "--" +:+ rest)
      with (String c' (A' +:+ "--" +:+ rest)).
    rewrite prefix_sep_other; [done|]. by apply negb_true_iff.
Qed.

Lemma splitHead_fingerprint A ctx :
  sepFree A = true -> splitHead "--" (fingerprint A ctx) = A.
Proof. intros H. rewrite fingerprint_unfold. by apply splitHead_sepFree. Qed.

Lemma prefix_sep_dashes s : String.prefix "--" (String "-" (String "-" s)) = true.
Proof. apply (prefix_sep_head s). Qed.

(** The condition is also necessary: only for such a flag key is the
    flag-key segment of its cache keys the flag key itself. *)
Lemma splitHead_sepFree_inv A rest :
  splitHead "--" (A +:+ "--" +:+ rest) = A -> sepFree A = true.
Proof.
  induction A as [|c A IH]; [done|].
  change (String c A +:+ "--" +:+ rest) with (String c (A +:+ "--" +:+ rest)).
  rewrite splitHead_cons.
  destruct (String.prefix "--" (String c (A +:+ "--" +:+ rest))) eqn:Hpre;
    [discriminate|].
  intros [= Hrest]. specialize (IH Hrest).
  destruct A as [|c' A'].
  - cbn [sepFree]. destruct (Ascii.eqb_spec c "-") as [->|]; [|done].
    change ("" +:+ "--" +:+ rest) with (String "-" (String "-" rest)) in Hpre.
    rewrite prefix_sep_dashes in Hpre. discriminate.
  - change (sepFree (String c (String c' A')))
      with (negb (Ascii.eqb c "-" && Ascii.eqb c' "-")
            && sepFree (String c' A')).
    rewrite IH, andb_true_r.
    destruct (Ascii.eqb_spec c "-") as [->|]; [|done].
    destruct (Ascii.eqb_spec c' "-") as [->|]; [|done].
    change (String "-" A' +:+ "--" +:+ rest)
      with (String "-" (A' +:+ "--" +:+ rest)) in Hpre.
    rewrite prefix_sep_dashes in Hpre. discriminate.
Qed.

End FingerprintFacts.

(** ** Resolution *)

Module ResolutionFacts.
Import Connect Provider Spec Lifetime NodeCacheFacts.

Lemma setCache_id p : setCache (cache p) p = p.
Proof. by destruct p. Qed.

Section Generic.
Context {T : Type} (name : string)
  (call : PromiseClient -> ResolveRequest -> Outcome (ResolveResponse T))
  (valueOf : T -> option FlagValue)
  (k : string) (d : FlagValue) (ctx : EvaluationContext).

Lemma resolve_notReady now now' p :
  providerReady p = false ->
  resolveEvaluation name call valueOf k d ctx now now' p
  = (Resolved (Some (notReady d p)), p).
Proof. intros H. unfold resolveEvaluation. by rewrite H. Qed.

(** The first lookup finds a live entry: the call resolves to whatever
    the second lookup returns. *)
Lemma resolve_found now now' p e :
  providerReady p = true -> cacheActive p = true ->
  fst (NodeCache.get (fingerprint k ctx) now (cache p)) = Some e ->
  resolveEvaluation name call valueOf k d ctx now now' p
  = (Resolved (fst (NodeCache.get (fingerprint k ctx) now' (cache p))),
     setCache (snd (NodeCache.get (fingerprint k ctx) now' (cache p))) p).
Proof.
  intros Hr Ha Hget. apply get_Some in Hget as [Hget _].
  unfold resolveEvaluation. rewrite Hr, Ha. cbv zeta. simpl negb.
  change (reqHashOf (makeRequest k ctx)) with (fingerprint k ctx).
  cbv iota. rewrite Hget. simpl. rewrite setCache_id.
  by destruct (NodeCache.get (fingerprint k ctx) now' (cache p)).
Qed.

Lemma resolve_miss now now' p :
  providerReady p = true ->
  (cacheActive p = true ->
   fst (NodeCache.get (fingerprint k ctx) now (cache p)) = None) ->
  resolveEvaluation name call valueOf k d ctx now now' p
  = (Pending call (makeRequest k ctx) (handlers valueOf (fingerprint k ctx) d),
     logCall name (makeRequest k ctx) (afterLookup (fingerprint k ctx) now p)).
Proof.
  intros Hr Hmiss. unfold resolveEvaluation, afterLookup.
  rewrite Hr. cbv zeta. simpl negb.
  change (reqHashOf (makeRequest k ctx)) with (fingerprint k ctx). cbv iota.
  destruct (cacheActive p); [|done].
  specialize (Hmiss eq_refl).
  destruct (NodeCache.get (fingerprint k ctx) now (cache p)) as [r c].
  simpl in *. by subst r.
Qed.

End Generic.

Lemma invoke_notReady c now now' p :
  providerReady p = false ->
  invoke c now now' p = (Resolved (Some (notReady (callDefault c) p)), p).
Proof. intros H. destruct c; simpl; by apply resolve_notReady. Qed.

Lemma invoke_found c now now' p e :
  providerReady p = true -> cacheActive p = true ->
  fst (NodeCache.get (callKey c) now (cache p)) = Some e ->
  invoke c now now' p
  = (Resolved (fst (NodeCache.get (callKey c) now' (cache p))),
     setCache (snd (NodeCache.get (callKey c) now' (cache p))) p).
Proof. intros Hr Ha Hget. destruct c; simpl; by eapply resolve_found. Qed.

(** The entry is live at both lookups: the call resolves to it and the
    provider stays as it is. *)
Lemma invoke_hit c now now' p e :
  providerReady p = true -> cacheActive p = true ->
  fst (NodeCache.get (callKey c) now (cache p)) ≠ None ->
  fst (NodeCache.get (callKey c) now' (cache p)) = Some e ->
  invoke c now now' p = (Resolved (Some e), p).
Proof.
  intros Hr Ha Hlive Hget.
  destruct (fst (NodeCache.get (callKey c) now (cache p))) as [e0|] eqn:H0;
    [|done].
  rewrite (invoke_found c now now' p e0 Hr Ha H0).
  apply get_Some in Hget as [-> _]. simpl. by rewrite setCache_id.
Qed.

(** The first lookup finds nothing: the call goes to the remote service
    with the handlers that [settle] runs. *)
Lemma invoke_miss c now now' p :
  providerReady p = true ->
  (cacheActive p = true ->
   fst (NodeCache.get (callKey c) now (cache p)) = None) ->
  isPending (fst (invoke c now now' p)) = true
  ∧ snd (invoke c now now' p)
    = logCall (callName c) (callRequest c) (afterLookup (callKey c) now p)
  ∧ ∀ client later q,
      await client later (fst (invoke c now now' p)) q = settle c client later q.
Proof.
  intros Hr Hmiss.
  destruct c as [k d ctx|k d ctx|k d ctx|k d ctx]; simpl in *;
    match goal with
    | |- context [?f k d ctx now now' p] =>
        unfold f; rewrite resolve_miss by done
    end; repeat split; reflexivity.
Qed.

(** A call answers at once, leaving the provider as it is or as the
    second lookup leaves it, or it goes to the remote service. *)
Lemma invoke_cases c now now' p :
  (∃ r q, invoke c now now' p = (Resolved r, q)
          ∧ (q = p
             ∨ cacheActive p = true
               ∧ q = setCache
                       (snd (NodeCache.get (callKey c) now' (cache p))) p))
  ∨ (providerReady p = true
     ∧ (cacheActive p = true ->
        fst (NodeCache.get (callKey c) now (cache p)) = None)
     ∧ isPending (fst (invoke c now now' p)) = true
     ∧ snd (invoke c now now' p)
       = logCall (callName c) (callRequest c) (afterLookup (callKey c) now p)
     ∧ ∀ client later q,
         await client later (fst (invoke c now now' p)) q
         = settle c client later q).
Proof.
  destruct (providerReady p) eqn:Hr.
  - destruct (cacheActive p) eqn:Ha.
    + destruct (fst (NodeCache.get (callKey c) now (cache p))) as [e|] eqn:Hget.
      * left. eexists _, _. split; [by apply (invoke_found c now now' p e)|].
        by right.
      * right. split; [done|]. split; [done|]. by apply invoke_miss.
    + right. split; [done|]. split; [congruence|].
      apply invoke_miss; [done | congruence].
  - left. eexists _, _. split; [by apply invoke_notReady | by left].
Qed.

Lemma afterLookup_control key now p : sameControl p (afterLookup key now p).
Proof.
  unfold afterLookup, sameControl.
  destruct (cacheActive p) eqn:Ha; simpl; by rewrite ?Ha.
Qed.

Lemma invoke_control c now now' p : sameControl p (snd (invoke c now now' p)).
Proof.
  destruct (invoke_cases c now now' p)
    as [(r & q & -> & [-> | [_ ->]]) | (_ & _ & _ & -> & _)].
  - done.
  - done.
  - destruct (afterLookup_control (callKey c) now p) as (?&?&?&?&?&?).
    done.
Qed.

Lemma handlers_control {T} (valueOf : T -> option FlagValue) key d o later p :
  sameControl p (snd (handlers valueOf key d o later p)).
Proof.
  unfold handlers. destruct o as [res|err]; [|done].
  destruct (valueOf (res_value res)); [|done].
  unfold sameControl. destruct (cacheActive p) eqn:Ha; simpl; by rewrite ?Ha.
Qed.

Lemma settle_control c client later p :
  sameControl p (snd (settle c client later p)).
Proof. destruct c; apply handlers_control. Qed.

(** What the handlers of a call do to the provider: nothing, or they
    store the result they return under the key of the call. *)
Lemma settle_cases c client later q :
  snd (settle c client later q) = q
  ∨ ∃ resDetails,
      fst (settle c client later q) = Some resDetails
      ∧ snd (settle c client later q)
        = setCache (NodeCache.set (callKey c) resDetails later (cache q)) q.
Proof.
  destruct c as [k d ctx|k d ctx|k d ctx|k d ctx]; simpl; unfold handlers;
    match goal with
    | |- context [match ?o with Fulfilled _ => _ | Rejected _ => _ end] =>
        destruct o as [res|err]; [|by left]
    end;
    match goal with
    | |- context [match ?vo with Some _ => _ | None => _ end] =>
        destruct vo as [val|]; [|by left]
    end;
    (destruct (cacheActive q); [right; eexists; split; reflexivity | by left]).
Qed.

Lemma store_lookup key value now c :
  NodeCache.data (NodeCache.store key value now c) !! key
  = Some (NodeCache._wrap value (NodeCache.stdTTL c) now).
Proof. simpl. apply lookup_insert_eq. Qed.


(** Case analysis on the answer of the remote operation of the call at
    hand. *)
Ltac outcome_cases :=
  unfold handlers, booleanValue, stringValue, numberValue, objectValue;
  match goal with
  | |- context [resolveBoolean ?cl ?r] =>
      destruct (resolveBoolean cl r) as [res|err]
  | |- context [resolveString ?cl ?r] =>
      destruct (resolveString cl r) as [res|err]
  | |- context [resolveFloat ?cl ?r] =>
      destruct (resolveFloat cl r) as [res|err]
  | |- context [resolveObject ?cl ?r] =>
      destruct (resolveObject cl r) as [[[val|] rs vr]|err]
  end; simpl.

Lemma success_shape c client rd :
  success c client = Some rd ->
  errorCode rd = None ∧ is_Some (variant rd).
Proof.
  destruct c as [k d ctx|k d ctx|k d ctx|k d ctx]; simpl; outcome_cases;
    try discriminate; intros [= <-]; simpl; (split; [done | by eexists]).
Qed.

(** The handlers of a call whose remote operation answers with a value
    return the result and, with caching on, store it. *)
Lemma settle_success c client later q rd :
  success c client = Some rd ->
  settle c client later q
  = (Some rd,
     if cacheActive q
     then setCache (NodeCache.set (callKey c) rd later (cache q)) q
     else q).
Proof.
  destruct c as [k d ctx|k d ctx|k d ctx|k d ctx]; simpl; outcome_cases;
    try discriminate; intros [= <-]; reflexivity.
Qed.

(** Without such an answer they leave the provider as it is. *)
Lemma settle_no_success c client later q :
  success c client = None -> snd (settle c client later q) = q.
Proof.
  destruct c as [k d ctx|k d ctx|k d ctx|k d ctx]; simpl; outcome_cases;
    try discriminate; done.
Qed.

(** What the cache holds under the key of a call after the call and its
    answer, when that entry is live: the result the first call returned,
    which for a call that went to the remote service is the result built
    from its answer. *)
Lemma entry_after_call c client now1 now1' later now2 p pr1 p1 r1 p2 :
  providerReady p = true ->
  cacheActive p = true ->
  invoke c now1 now1' p = (pr1, p1) ->
  await client later pr1 p1 = (r1, p2) ->
  fst (NodeCache.get (callKey c) now2 (cache p2)) ≠ None ->
  ∃ w,
    NodeCache.data (cache p2) !! callKey c = Some w
    ∧ r1 = Some (NodeCache.v w)
    ∧ (isPending pr1 = true -> success c client = Some (NodeCache.v w))
    ∧ providerReady p2 = true ∧ cacheActive p2 = true.
Proof.
  intros Hr Ha Hfirst Hawait Hlive.
  destruct (fst (NodeCache.get (callKey c) now1 (cache p))) as [e1|] eqn:Hget1.
  - (* the first call found the entry *)
    rewrite (invoke_found c now1 now1' p e1 Hr Ha Hget1) in Hfirst.
    injection Hfirst as <- <-. simpl in Hawait. injection Hawait as <- <-.
    simpl in Hlive.
    destruct (fst (NodeCache.get (callKey c) now1' (cache p))) as [e|] eqn:Hget.
    + apply get_Some in Hget as [Hget (w & Hw & <-)].
      rewrite Hget. simpl. rewrite ?setCache_id. exists w. by repeat split.
    + apply get_None in Hget. rewrite get_absent in Hlive by done. done.
  - (* the first call went to the remote service *)
    destruct (invoke_miss c now1 now1' p Hr (fun _ => Hget1))
      as (_ & Hp1 & Hsettle).
    rewrite Hfirst in Hp1, Hsettle. simpl in Hp1.
    rewrite Hsettle in Hawait.
    pose proof (invoke_control c now1 now1' p) as Hctl.
    rewrite Hfirst in Hctl. destruct Hctl as (Ha1 & Hr1 & _). simpl in Ha1, Hr1.
    assert (Habsent : NodeCache.data (cache p1) !! callKey c = None).
    { rewrite Hp1. unfold afterLookup. rewrite Ha. simpl. by apply get_None. }
    destruct (success c client) as [rd|] eqn:Hs.
    + rewrite (settle_success c client later p1 rd Hs) in Hawait.
      rewrite Ha1, Ha in Hawait. injection Hawait as <- <-. simpl in *.
      unfold NodeCache.set in *.
      destruct (listeners_cases
                  (NodeCache.setListeners
                     (NodeCache.store (callKey c) rd later (cache p1)))
                  (NodeCache.store (callKey c) rd later (cache p1)))
        as [Hkeep | Hflush].
      * rewrite Hkeep. rewrite store_lookup.
        eexists. split; [done|]. simpl. rewrite Hr1, Ha1. by repeat split.
      * rewrite get_absent in Hlive; [done|]. rewrite Hflush. apply lookup_empty.
    + pose proof (settle_no_success c client later p1 Hs) as Hsame.
      rewrite Hawait in Hsame. simpl in Hsame. subst p2.
      rewrite get_absent in Hlive by done. done.
Qed.

End ResolutionFacts.

(** ** The event stream *)

Module StreamFacts.
Import Connect Provider Spec NodeCacheFacts ResolutionFacts.

Lemma bustKey_other fk st key key' :
  strictEqualsString fk (splitHead "--" key') = false ->
  NodeCache.data (snd (bustKey fk st key)) !! key'
  = NodeCache.data (snd st) !! key'.
Proof.
  intros Hne. unfold bustKey.
  destruct (strictEqualsString fk (splitHead "--" key)) eqn:Hk; [|done].
  simpl. rewrite data_del. case_decide; [|done]. congruence.
Qed.

(** Keys of other flags stay. *)
Lemma bust_fold_other fk ks st key' :
  strictEqualsString fk (splitHead "--" key') = false ->
  NodeCache.data (snd (fold_left (bustKey fk) ks st)) !! key'
  = NodeCache.data (snd st) !! key'.
Proof.
  intros Hne. revert st. induction ks as [|key ks IH]; intros st; simpl; [done|].
  rewrite IH. by apply bustKey_other.
Qed.

Lemma bust_fold_absent fk ks st key' :
  NodeCache.data (snd st) !! key' = None ->
  NodeCache.data (snd (fold_left (bustKey fk) ks st)) !! key' = None.
Proof.
  revert st. induction ks as [|key ks IH]; intros st Hst; simpl; [done|].
  apply IH. unfold bustKey.
  destruct (strictEqualsString fk (splitHead "--" key)); [|done].
  simpl. rewrite data_del. by case_decide.
Qed.

(** Keys of the flag go, once the loop has met them. *)
Lemma bust_fold_hit fk ks st key' :
  strictEqualsString fk (splitHead "--" key') = true ->
  key' ∈ ks ->
  NodeCache.data (snd (fold_left (bustKey fk) ks st)) !! key' = None.
Proof.
  intros Heq. revert st. induction ks as [|key ks IH]; intros st Hin; simpl.
  - by apply elem_of_nil in Hin.
  - apply elem_of_cons in Hin as [<- | Hin]; [|by apply IH].
    apply bust_fold_absent. unfold bustKey. rewrite Heq. simpl.
    rewrite data_del. by case_decide.
Qed.

Lemma bustFlag_other fk c key' :
  strictEqualsString fk (splitHead "--" key') = false ->
  NodeCache.data (snd (bustFlag fk c)) !! key' = NodeCache.data c !! key'.
Proof. intros H. unfold bustFlag. by rewrite bust_fold_other. Qed.

Lemma bustFlag_hit fk c key' :
  strictEqualsString fk (splitHead "--" key') = true ->
  NodeCache.data (snd (bustFlag fk c)) !! key' = None.
Proof.
  intros H. unfold bustFlag.
  destruct (NodeCache.data c !! key') as [w|] eqn:Hk.
  - apply bust_fold_hit; [done|]. unfold NodeCache.keysOf.
    apply list_elem_of_fmap. exists (key', w). split; [done|].
    by apply elem_of_map_to_list.
  - by apply bust_fold_absent.
Qed.

Lemma bust_fold_inv N ks st :
  NodeCache.statsExact (snd st) ->
  NodeCache.statsExact (snd (fold_left (bustKey N) ks st))
  ∧ NodeCache.setListeners (snd (fold_left (bustKey N) ks st))
    = NodeCache.setListeners (snd st).
Proof.
  revert st. induction ks as [|key ks IH]; intros st Hst; simpl; [done|].
  unfold bustKey at 2 4.
  destruct (strictEqualsString N (splitHead "--" key)).
  - destruct (IH (fst st + 1, NodeCache.del key (snd st))) as [H1 H2].
    { by apply statsExact_del. }
    split; [done|]. rewrite H2. apply del_listeners.
  - by apply IH.
Qed.

(** What the message callback leaves alone. *)
Lemma onMessage_frame m p :
  cacheActive (onMessage m p) = cacheActive p
  ∧ connectionError (onMessage m p) = connectionError p
  ∧ stream (onMessage m p) = stream p
  ∧ eventStreamCalls (onMessage m p) = eventStreamCalls p
  ∧ timeouts (onMessage m p) = timeouts p
  ∧ remoteCalls (onMessage m p) = remoteCalls p.
Proof.
  unfold onMessage.
  destruct (String.eqb (type m) EVENT_PROVIDER_READY); [done|].
  destruct (String.eqb (type m) EVENT_CONFIGURATION_CHANGE); [|done].
  destruct (data m) as [s|]; [|done].
  by destruct (bustFlag _ _).
Qed.

Lemma onMessage_ready m p :
  providerReady p = true -> providerReady (onMessage m p) = true.
Proof.
  intros H. unfold onMessage.
  destruct (String.eqb (type m) EVENT_PROVIDER_READY); [done|].
  destruct (String.eqb (type m) EVENT_CONFIGURATION_CHANGE); [|done].
  destruct (data m) as [s|]; [|done].
  by destruct (bustFlag _ _).
Qed.

Lemma onMessage_cacheInv N m p : cacheInv N p -> cacheInv N (onMessage m p).
Proof.
  intros [Hs Hl]. unfold onMessage.
  destruct (String.eqb (type m) EVENT_PROVIDER_READY); [done|].
  destruct (String.eqb (type m) EVENT_CONFIGURATION_CHANGE); [|done].
  destruct (data m) as [s|].
  - unfold bustFlag.
    destruct (bust_fold_inv (getField "flagKey" (Struct.fields s))
                (NodeCache.keysOf (cache p)) (0, cache p) Hs) as [H1 H2].
    destruct (fold_left _ _ _) as [deleted c]. simpl in *.
    split; simpl; [done | by rewrite H2].
  - split; [apply statsExact_flushAll | done].
Qed.

(** *** Invariants of the transition system *)

Lemma afterLookup_cacheInv N key now p :
  cacheInv N p -> cacheInv N (afterLookup key now p).
Proof.
  intros [Hs Hl]. unfold afterLookup. destruct (cacheActive p); [|done].
  split; simpl; [by apply statsExact_get | by rewrite get_listeners].
Qed.

Lemma invoke_cacheInv N c now now' p :
  cacheInv N p -> cacheInv N (snd (invoke c now now' p)).
Proof.
  intros H.
  destruct (invoke_cases c now now' p)
    as [(r & q & -> & [-> | [_ ->]]) | (_ & _ & _ & -> & _)]; [done| |].
  - destruct H as [Hs Hl].
    split; simpl; [by apply statsExact_get | by rewrite get_listeners].
  - by apply (afterLookup_cacheInv N (callKey c) now p) in H.
Qed.

Lemma handlers_cacheInv {T} N (valueOf : T -> option FlagValue) key d o later p :
  cacheInv N p -> cacheInv N (snd (handlers valueOf key d o later p)).
Proof.
  intros [Hs Hl]. unfold handlers. destruct o as [res|err]; [|done].
  destruct (valueOf (res_value res)); [|done].
  destruct (cacheActive p); [|done].
  split; simpl; [by apply statsExact_set | by rewrite set_listeners].
Qed.

Lemma settle_cacheInv N c client later p :
  cacheInv N p -> cacheInv N (snd (settle c client later p)).
Proof. destruct c; apply handlers_cacheInv. Qed.

Lemma new_cacheInv options :
  cacheInv (Configuration.cacheMaxBytes (Configuration.getConfig options))
           (new options).
Proof.
  unfold new, cacheInv, listenersFor. simpl.
  destruct (negb (_ =? 0)); simpl.
  - split; [|done]. apply statsExact_addListener, statsExact_new.
  - split; [|done]. apply statsExact_new.
Qed.

Lemma step_cacheInv N p e p' :
  cacheInv N p -> step p e = Some p' -> cacheInv N p'.
Proof.
  intros H Hstep. destruct e as [m|random| |c now now'|c client later];
    unfold step in Hstep; destruct (stream p) as [i n|i n delay|];
    try discriminate; injection Hstep as <-;
    first [ by apply onMessage_cacheInv | by apply invoke_cacheInv
          | by apply settle_cacheInv | idtac ].
  - unfold onClose. by destruct (negb (i =? n)).
  - done.
Qed.

Lemma run_cacheInv N es p p' :
  cacheInv N p -> run p es = Some p' -> cacheInv N p'.
Proof.
  revert p. induction es as [|e es IH]; intros p H Hrun; simpl in Hrun.
  - by injection Hrun as <-.
  - destruct (step p e) as [p1|] eqn:Hstep; [|done].
    eapply IH; [|done]. by eapply step_cacheInv.
Qed.

(** No transition resets the readiness flag. *)
Lemma step_ready p e p' :
  providerReady p = true -> step p e = Some p' -> providerReady p' = true.
Proof.
  intros H Hstep. destruct e as [m|random| |c now now'|c client later];
    unfold step in Hstep; destruct (stream p) as [i n|i n delay|];
    try discriminate; injection Hstep as <-;
    first [ by apply onMessage_ready
          | by destruct (invoke_control c now now' p) as (_ & -> & _)
          | by destruct (settle_control c client later p) as (_ & -> & _)
          | idtac ].
  - unfold onClose. by destruct (negb (i =? n)).
  - done.
Qed.

Lemma run_ready es p p' :
  providerReady p = true -> run p es = Some p' -> providerReady p' = true.
Proof.
  revert p. induction es as [|e es IH]; intros p H Hrun; simpl in Hrun.
  - by injection Hrun as <-.
  - destruct (step p e) as [p1|] eqn:Hstep; [|done].
    eapply IH; [|done]. by eapply step_ready.
Qed.

(** The connection-error flag is set exactly when the retries are
    exhausted. *)
Lemma step_exhausted p e p' :
  connectionError p = exhausted p -> step p e = Some p' ->
  connectionError p' = exhausted p'.
Proof.
  unfold exhausted. intros H Hstep.
  destruct e as [m|random| |c now now'|c client later];
    unfold step in Hstep; destruct (stream p) as [i n|i n delay|] eqn:Hs;
    try discriminate; injection Hstep as <-;
    first [ destruct (onMessage_frame m p) as (_ & -> & -> & _)
          | destruct (invoke_control c now now' p) as (_ & _ & -> & -> & _)
          | destruct (settle_control c client later p) as (_ & _ & -> & -> & _)
          | idtac ];
    rewrite ?Hs; try done.
  unfold onClose. by destruct (negb (i =? n)).
Qed.

Lemma run_exhausted es p p' :
  connectionError p = exhausted p -> run p es = Some p' ->
  connectionError p' = exhausted p'.
Proof.
  revert p. induction es as [|e es IH]; intros p H Hrun; simpl in Hrun.
  - by injection Hrun as <-.
  - destruct (step p e) as [p1|] eqn:Hstep; [|done].
    eapply IH; [|done]. by eapply step_exhausted.
Qed.

Lemma new_exhausted options : connectionError (new options) = exhausted (new options).
Proof. reflexivity. Qed.

End StreamFacts.

(** ** The claims about resolution *)

Module ResolutionClaims.
Import Connect Provider Spec Examples Lifetime NodeCacheFacts ResolutionFacts
       StreamFacts.

(** C2. Readiness gate: a call of any of the four methods on a provider
    that is not ready answers at once with the default value and the
    reason ERROR, leaves the provider as it is (no remote call is
    logged), and carries CONNECTION_ERROR when the retries are exhausted
    and PROVIDER_NOT_READY otherwise. *)
Theorem readiness_gate options es p c now now' :
  run (new options) es = Some p ->
  providerReady p = false ->
  invoke c now now' p
  = (Resolved
       (Some {| value := callDefault c; reason := "ERROR";
                errorCode :=
                  Some (if exhausted p then "CONNECTION_ERROR"
                        else "PROVIDER_NOT_READY");
                variant := None |}), p)
  ∧ remoteCalls (snd (invoke c now now' p)) = remoteCalls p.
Proof.
  intros Hrun Hnr. rewrite (invoke_notReady c now now' p Hnr).
  split; [|done]. unfold notReady.
  by rewrite (run_exhausted es (new options) p (new_exhausted options) Hrun).
Qed.

Lemma readiness_gate_witness :
  invoke flagA 0 0 (new withCache)
  = (Resolved
       (Some {| value := VBoolean false; reason := "ERROR";
                errorCode := Some "PROVIDER_NOT_READY"; variant := None |}),
     new withCache)
  ∧ remoteCalls (snd (invoke flagA 0 0 (new withCache)))
    = remoteCalls (new withCache).
Proof.
  apply (readiness_gate withCache [] (new withCache) flagA 0 0); reflexivity.
Defined.

(** C3 as stated fails: a call rejected with [Unavailable] is answered
    with the error code DISABLED, not CONNECTION_ERROR. *)
Lemma unavailable_is_disabled :
  isPending (fst (invoke flagA 0 0 ready)) = true
  ∧ rejection flagA unavailableClient = Some {| code := Some Unavailable |}
  ∧ errorCode <$> fst (await unavailableClient 1 (fst (invoke flagA 0 0 ready))
                         (snd (invoke flagA 0 0 ready)))
    = Some (Some "DISABLED")
  ∧ "DISABLED" ≠ ERROR_CONNECTION_ERROR.
Proof. repeat split; try (vm_compute; reflexivity). discriminate. Qed.

(** C3, amended: a call whose remote invocation is rejected never
    raises; whatever the provider is when the rejection arrives, the
    call is answered with the default value, the reason ERROR and the
    code FLAG_NOT_FOUND for not-found, TYPE_MISMATCH for
    invalid-argument, DISABLED for unavailable, PARSE_ERROR for
    data-loss and GENERAL for anything else, and the provider stays as
    it is. *)
Theorem failure_mapping c client now now' later p q err :
  isPending (fst (invoke c now now' p)) = true ->
  rejection c client = Some err ->
  await client later (fst (invoke c now now' p)) q
  = (Some {| value := callDefault c; reason := "ERROR";
             errorCode :=
               Some match code err with
                    | Some NotFound => "FLAG_NOT_FOUND"
                    | Some InvalidArgument => "TYPE_MISMATCH"
                    | Some Unavailable => "DISABLED"
                    | Some DataLoss => "PARSE_ERROR"
                    | _ => "GENERAL"
                    end;
             variant := None |}, q).
Proof.
  intros Hpending Hrej.
  destruct (invoke_cases c now now' p)
    as [(r & q0 & Hr & _) | (_ & _ & _ & _ & ->)].
  { rewrite Hr in Hpending. discriminate. }
  destruct c as [k d ctx|k d ctx|k d ctx|k d ctx]; simpl in *;
    match type of Hrej with
    | context [match ?o with Rejected _ => _ | Fulfilled _ => _ end] =>
        destruct o as [res|err']; [discriminate|]
    end;
    injection Hrej as ->; reflexivity.
Qed.

Lemma failure_mapping_witness :
  await unavailableClient 1 (fst (invoke flagA 0 0 ready)) ready
  = (Some {| value := VBoolean false; reason := "ERROR";
             errorCode := Some "DISABLED"; variant := None |}, ready).
Proof.
  apply (failure_mapping flagA unavailableClient 0 0 1 ready ready
           {| code := Some Unavailable |}); vm_compute; reflexivity.
Defined.

(** C4. Cache hit avoids network: with caching enabled, once a call
    has been resolved and the entry for its flag key and context is in
    the cache and live (at both lookups of the second call), the same
    call again does not invoke the remote operation: it is answered at
    once with the stored entry verbatim, which is what the first call
    returned and, when the first call went to the remote service, the
    value, reason and variant of its answer; the provider, and with it
    the log of remote calls, stays as it is. *)
Theorem cache_hit_avoids_network
    c client now1 now1' later now2 now2' p pr1 p1 r1 p2 :
  providerReady p = true ->
  cacheActive p = true ->
  invoke c now1 now1' p = (pr1, p1) ->
  await client later pr1 p1 = (r1, p2) ->
  fst (NodeCache.get (callKey c) now2 (cache p2)) ≠ None ->
  fst (NodeCache.get (callKey c) now2' (cache p2)) ≠ None ->
  ∃ w,
    NodeCache.data (cache p2) !! callKey c = Some w
    ∧ r1 = Some (NodeCache.v w)
    ∧ (isPending pr1 = true -> success c client = Some (NodeCache.v w))
    ∧ invoke c now2 now2' p2 = (Resolved (Some (NodeCache.v w)), p2)
    ∧ remoteCalls (snd (invoke c now2 now2' p2)) = remoteCalls p2.
Proof.
  intros Hr Ha Hfirst Hawait Hlive Hlive'.
  destruct (entry_after_call c client now1 now1' later now2' p pr1 p1 r1 p2
              Hr Ha Hfirst Hawait Hlive') as (w & Hw & Hr1 & Hsucc & Hr2 & Ha2).
  exists w. split; [done|]. split; [done|]. split; [done|].
  assert (Hgoal : invoke c now2 now2' p2
                  = (Resolved (Some (NodeCache.v w)), p2));
    [|by rewrite Hgoal].
  apply invoke_hit; [done|done|done|].
  destruct (fst (NodeCache.get (callKey c) now2' (cache p2))) as [e|] eqn:Hget;
    [|done].
  apply get_Some in Hget as [_ (w' & Hw' & <-)].
  rewrite Hw in Hw'. by injection Hw' as <-.
Qed.

Lemma cache_hit_avoids_network_witness :
  ∃ w,
    NodeCache.data (cache warm) !! callKey flagA = Some w
    ∧ Some stored = Some (NodeCache.v w)
    ∧ (isPending (fst (invoke flagA 0 0 ready)) = true ->
       success flagA staticClient = Some (NodeCache.v w))
    ∧ invoke flagA 5 6 warm = (Resolved (Some (NodeCache.v w)), warm)
    ∧ remoteCalls (snd (invoke flagA 5 6 warm)) = remoteCalls warm.
Proof.
  refine (cache_hit_avoids_network flagA staticClient 0 0 1 5 6 ready
           (fst (invoke flagA 0 0 ready)) (snd (invoke flagA 0 0 ready))
           (Some stored) warm _ _ _ _ _ _).
  - reflexivity.
  - reflexivity.
  - apply surjective_pairing.
  - vm_compute; reflexivity.
  - vm_compute; discriminate.
  - vm_compute; discriminate.
Defined.

End ResolutionClaims.

(** ** The claims about the cache and the event stream *)

Module StreamClaims.
Import Connect Provider Spec Examples NodeCacheFacts ResolutionFacts StreamFacts
       FingerprintFacts.

(** C5 as stated fails: for the distinct flags [my] and [my--other], the
    notification for [my] removes the entry of [my--other], whose key
    also starts with [my--]. *)
Lemma invalidation_crosses_flags :
  "my" ≠ "my--other"
  ∧ NodeCache.data (cache twoFlags) !! fingerprint "my--other" []
    = Some {| NodeCache.t := 0; NodeCache.v := stored |}
  ∧ NodeCache.data
      (cache (onMessage (configurationChange "write" "file" "my") twoFlags))
    !! fingerprint "my--other" [] = None.
Proof.
  split; [discriminate|]. split; vm_compute; reflexivity.
Qed.

(** C5, amended: for distinct flag keys A and B in which the separator
    does not occur (no two consecutive dashes and no dash at the end),
    handling a configuration_change notification with flagKey = A
    removes every cached entry of A and leaves every entry of B as it
    is. *)
Theorem targeted_invalidation A B ctxA ctxB type source p :
  sepFree A = true -> sepFree B = true -> A ≠ B ->
  NodeCache.data
    (cache (onMessage (configurationChange type source A) p))
  !! fingerprint A ctxA = None
  ∧ NodeCache.data
      (cache (onMessage (configurationChange type source A) p))
    !! fingerprint B ctxB
    = NodeCache.data (cache p) !! fingerprint B ctxB.
Proof.
  intros HA HB Hne.
  change (onMessage (configurationChange type source A) p)
    with (let '(deleted, c) := bustFlag (Some (JString A)) (cache p) in
          setCache c p).
  pose proof (bustFlag_hit (Some (JString A)) (cache p) (fingerprint A ctxA)) as Hhit.
  pose proof (bustFlag_other (Some (JString A)) (cache p) (fingerprint B ctxB)) as Hother.
  destruct (bustFlag (Some (JString A)) (cache p)) as [deleted c].
  simpl in *. split.
  - apply Hhit. rewrite splitHead_fingerprint by done. apply String.eqb_refl.
  - apply Hother. rewrite splitHead_fingerprint by done.
    by apply String.eqb_neq.
Qed.

Lemma targeted_invalidation_witness :
  NodeCache.data
    (cache (onMessage (configurationChange "write" "file" "flag-a") warm))
  !! fingerprint "flag-a" [] = None
  ∧ NodeCache.data
      (cache (onMessage (configurationChange "write" "file" "flag-a") warm))
    !! fingerprint "flag-b" []
    = NodeCache.data (cache warm) !! fingerprint "flag-b" [].
Proof.
  refine (targeted_invalidation "flag-a" "flag-b" [] [] "write" "file" warm _ _ _).
  - reflexivity.
  - reflexivity.
  - discriminate.
Defined.

(** C6. Size-based flush: in a provider built with cacheMaxBytes = N > 0,
    after every insertion into the cache the key bytes and value bytes
    summed over its entries do not exceed N or the cache is empty; the
    insertion that takes the sum above N leaves the cache empty, any
    other insertion is kept as made. *)
Theorem size_flush options es p key value now N :
  Configuration.cacheMaxBytes (Configuration.getConfig options) = N ->
  0 < N ->
  run (new options) es = Some p ->
  (NodeCache.aggregateSize (NodeCache.set key value now (cache p)) ≤ N
   ∨ NodeCache.data (NodeCache.set key value now (cache p)) = ∅)
  ∧ (N < NodeCache.aggregateSize (NodeCache.store key value now (cache p)) ->
     NodeCache.data (NodeCache.set key value now (cache p)) = ∅)
  ∧ (NodeCache.aggregateSize (NodeCache.store key value now (cache p)) ≤ N ->
     NodeCache.set key value now (cache p)
     = NodeCache.store key value now (cache p)).
Proof.
  intros HN Hpos Hrun.
  destruct (run_cacheInv N es (new options) p) as [Hexact Hls];
    [rewrite <-HN; apply new_cacheInv | done |].
  unfold listenersFor in Hls.
  replace (negb (N =? 0)) with true in Hls
    by (symmetry; apply negb_true_iff, Z.eqb_neq; lia).
  pose proof (statsExact_store key value now (cache p) Hexact) as [Hsize _].
  unfold NodeCache.set.
  replace (NodeCache.setListeners (NodeCache.store key value now (cache p)))
    with [NodeCache.BustOnSize N] by (by rewrite <-Hls).
  cbn [fold_left NodeCache.runListener]. unfold NodeCache.getStats.
  rewrite Hsize.
  destruct (NodeCache.aggregateSize (NodeCache.store key value now (cache p)) >? N)
    eqn:Hcmp.
  - apply Z.gtb_lt in Hcmp. split; [by right|]. split; [done|lia].
  - assert (NodeCache.aggregateSize (NodeCache.store key value now (cache p)) ≤ N).
    { destruct (Z.gtb_spec
                  (NodeCache.aggregateSize (NodeCache.store key value now (cache p)))
                  N); [discriminate|lia]. }
    split; [by left|]. split; [lia|done].
Qed.

Lemma size_flush_witness :
  (NodeCache.aggregateSize
     (NodeCache.set "flag-a--0" stored 0 (cache (new (withLimit 100)))) ≤ 100
   ∨ NodeCache.data
       (NodeCache.set "flag-a--0" stored 0 (cache (new (withLimit 100)))) = ∅)
  ∧ (100 < NodeCache.aggregateSize
             (NodeCache.store "flag-a--0" stored 0 (cache (new (withLimit 100)))) ->
     NodeCache.data
       (NodeCache.set "flag-a--0" stored 0 (cache (new (withLimit 100)))) = ∅)
  ∧ (NodeCache.aggregateSize
       (NodeCache.store "flag-a--0" stored 0 (cache (new (withLimit 100)))) ≤ 100 ->
     NodeCache.set "flag-a--0" stored 0 (cache (new (withLimit 100)))
     = NodeCache.store "flag-a--0" stored 0 (cache (new (withLimit 100)))).
Proof.
  refine (size_flush (withLimit 100) [] (new (withLimit 100))
            "flag-a--0" stored 0 100 _ _ _).
  - reflexivity.
  - lia.
  - reflexivity.
Defined.

Lemma allAttemptsFail_closed fuel random p :
  stream p = Closed -> allAttemptsFail fuel random p = Some p.
Proof. intros H. destruct fuel; simpl; by rewrite H. Qed.

Lemma allAttemptsFail_open fuel random p i n :
  stream p = Open i n ->
  allAttemptsFail (S fuel) random p
  = allAttemptsFail fuel random (onClose i n (random i) p).
Proof. intros H. simpl. unfold step. by rewrite H. Qed.

Lemma allAttemptsFail_retrying fuel random p i n delay :
  stream p = Retrying i n delay ->
  allAttemptsFail (S fuel) random p
  = allAttemptsFail fuel random (onTimeout i n p).
Proof. intros H. simpl. unfold step. by rewrite H. Qed.

(** From attempt [i0] on, with [k] retries left. *)
Lemma failures_from random k :
  ∀ (i0 fuel : nat) p,
    stream p = Open (Z.of_nat i0) (Z.of_nat (i0 + k)) ->
    (2 * k + 1 ≤ fuel)%nat ->
    ∃ p', allAttemptsFail fuel random p = Some p'
          ∧ eventStreamCalls p' = eventStreamCalls p + Z.of_nat k
          ∧ timeouts p'
            = (timeouts p
               ++ ((fun i => retryDelay i (random i))
                     <$> (Z.of_nat <$> seq i0 k)))%list
          ∧ connectionError p' = true
          ∧ stream p' = Closed.
Proof.
  induction k as [|k IH]; intros i0 fuel p Hs Hfuel.
  - destruct fuel as [|fuel]; [lia|].
    rewrite (allAttemptsFail_open fuel random p _ _ Hs).
    unfold onClose. replace (i0 + 0)%nat with i0 by lia.
    rewrite Z.eqb_refl. simpl negb. cbv iota.
    rewrite allAttemptsFail_closed by done.
    eexists. split; [done|]. simpl. split; [lia|].
    split; [by rewrite app_nil_r | done].
  - destruct fuel as [|[|fuel]]; [lia|lia|].
    rewrite (allAttemptsFail_open _ random p _ _ Hs).
    unfold onClose.
    replace (Z.of_nat i0 =? Z.of_nat (i0 + S k)) with false
      by (symmetry; apply Z.eqb_neq; lia).
    simpl negb. cbv iota zeta.
    rewrite (allAttemptsFail_retrying fuel random _ (Z.of_nat i0)
               (Z.of_nat (i0 + S k))
               (retryDelay (Z.of_nat i0) (random (Z.of_nat i0)))) by done.
    destruct (IH (S i0) fuel
                (onTimeout (Z.of_nat i0) (Z.of_nat (i0 + S k))
                   (setStream
                      (Retrying (Z.of_nat i0) (Z.of_nat (i0 + S k))
                         (retryDelay (Z.of_nat i0) (random (Z.of_nat i0))))
                      (setTimeout
                         (retryDelay (Z.of_nat i0) (random (Z.of_nat i0))) p))))
      as (p' & Hrun & Hcalls & Htimeouts & Herr & Hclosed).
    { simpl. f_equal; lia. }
    { lia. }
    exists p'. split; [done|]. simpl in Hcalls, Htimeouts.
    split; [lia|]. split; [|done].
    rewrite Htimeouts. by rewrite <-app_assoc.
Qed.



(** C8 as stated fails: a configuration_change whose payload has a type
    and a source but no flagKey is not answered with a flush; the entry
    cached for flag-a is still there afterwards. *)
Lemma change_without_flagKey_keeps_entries :
  getField "flagKey" [("type", JString "write"); ("source", JString "file")]
  = None
  ∧ NodeCache.data (cache warm) !! fingerprint "flag-a" []
    = Some {| NodeCache.t := 0; NodeCache.v := stored |}
  ∧ cache <$> step warm (Message changeWithoutFlagKey) = Some (cache warm).
Proof. repeat split; vm_compute; reflexivity. Qed.

(** C8, amended: for every configuration_change message that carries no
    data payload, the handler flushes the whole cache instead of
    invalidating one flag, and the connection goes on: the subscription
    stays open and neither flag of the provider changes. *)
Theorem malformed_notification_flushes p m i n :
  type m = EVENT_CONFIGURATION_CHANGE ->
  data m = None ->
  stream p = Open i n ->
  ∃ p', step p (Message m) = Some p'
        ∧ cache p' = NodeCache.flushAll (cache p)
        ∧ NodeCache.data (cache p') = ∅
        ∧ stream p' = Open i n
        ∧ connectionError p' = connectionError p
        ∧ providerReady p' = providerReady p.
Proof.
  intros Htype Hdata Hs. exists (onMessage m p).
  split; [unfold step; by rewrite Hs|].
  unfold onMessage. rewrite Htype, Hdata.
  change (String.eqb EVENT_CONFIGURATION_CHANGE EVENT_PROVIDER_READY) with false.
  rewrite String.eqb_refl. cbv iota. simpl. by rewrite Hs.
Qed.

Lemma malformed_notification_flushes_witness :
  ∃ p', step warm (Message changeWithoutData) = Some p'
        ∧ cache p' = NodeCache.flushAll (cache warm)
        ∧ NodeCache.data (cache p') = ∅
        ∧ stream p' = Open 0 1
        ∧ connectionError p' = connectionError warm
        ∧ providerReady p' = providerReady warm.
Proof.
  refine (malformed_notification_flushes warm changeWithoutData 0 1 _ _ _).
  - reflexivity.
  - reflexivity.
  - vm_compute. reflexivity.
Defined.

(** C9 as stated fails: when the subscription of a provider with a
    cached entry ends, the close callback leaves the cache as it is and
    the entry is still there. *)
Lemma entries_survive_disconnection :
  NodeCache.data (cache warm) !! fingerprint "flag-a" []
  = Some {| NodeCache.t := 0; NodeCache.v := stored |}
  ∧ cache <$> step warm (Close (1 # 2)) = Some (cache warm).
Proof. split; vm_compute; reflexivity. Qed.

(** C9, amended: the end of the event stream evicts nothing; handling
    the disconnection (the close callback and the retry timer after it)
    leaves the cache and every entry in it as they are. *)
Theorem disconnection_keeps_cache p e p' :
  (∃ random, e = Close random) ∨ e = Timeout ->
  step p e = Some p' ->
  cache p' = cache p.
Proof.
  intros [[random ->] | ->] Hstep; unfold step in Hstep;
    destruct (stream p) as [i n|i n delay|]; try discriminate;
    injection Hstep as <-.
  - unfold onClose. by destruct (negb (i =? n)).
  - done.
Qed.

Lemma disconnection_keeps_cache_witness :
  cache (onClose 0 1 (1 # 2) warm) = cache warm.
Proof.
  refine (disconnection_keeps_cache warm (Close (1 # 2)) _ _ _).
  - left. by exists (1 # 2).
  - vm_compute. reflexivity.
Defined.

(** C10. Readiness is permanent: once a provider_ready message has set
    the readiness flag, no later event (message, end of the stream,
    retry timer, retry exhaustion, resolution call or answer) resets it,
    so every later call gets past the readiness gate: either its first
    lookup finds a live cache entry and the call resolves to what its
    second lookup returns, or it goes to the remote service. *)
Theorem readiness_permanent p m p1 es p' :
  type m = EVENT_PROVIDER_READY ->
  step p (Message m) = Some p1 ->
  run p1 es = Some p' ->
  providerReady p' = true
  ∧ ∀ c now now',
      (∃ e, fst (NodeCache.get (callKey c) now (cache p')) = Some e
            ∧ invoke c now now' p'
              = (Resolved (fst (NodeCache.get (callKey c) now' (cache p'))),
                 setCache (snd (NodeCache.get (callKey c) now' (cache p')))
                   p'))
      ∨ isPending (fst (invoke c now now' p')) = true.
Proof.
  intros Htype Hstep Hrun.
  assert (Hready : providerReady p' = true).
  { apply (run_ready es p1 p'); [|done].
    unfold step in Hstep. destruct (stream p); try discriminate.
    injection Hstep as <-. unfold onMessage.
    by rewrite Htype, String.eqb_refl. }
  split; [done|]. intros c now now'.
  destruct (cacheActive p') eqn:Ha.
  - destruct (fst (NodeCache.get (callKey c) now (cache p'))) as [e|] eqn:Hget.
    + left. exists e. split; [done|]. by apply (invoke_found c now now' p' e).
    + right. by apply invoke_miss.
  - right. apply invoke_miss; [done|congruence].
Qed.

Lemma readiness_permanent_witness :
  ∃ p', run ready [Close (1 # 2); Timeout; Close (1 # 2)] = Some p'
        ∧ connectionError p' = true
        ∧ providerReady p' = true.
Proof.
  eexists. split; [vm_compute; reflexivity|]. split; [reflexivity|].
  refine (proj1 (readiness_permanent (new withCache) providerReadyMessage ready
                   [Close (1 # 2); Timeout; Close (1 # 2)] _ _ _ _)).
  - reflexivity.
  - reflexivity.
  - vm_compute. reflexivity.
Defined.

End StreamClaims.

(** ** The life of an instance *)

Module LifetimeFacts.
Import Connect Provider Spec Examples Lifetime NodeCacheFacts ResolutionFacts
       StreamFacts FingerprintFacts.

(** A property kept by every transition holds after every run. *)
Lemma run_invariant (I : FlagdWebProvider -> Prop) :
  (∀ p e p', I p -> step p e = Some p' -> I p') ->
  ∀ es p p', I p -> run p es = Some p' -> I p'.
Proof.
  intros Hstep es. induction es as [|e es IH]; intros p p' HI Hrun;
    simpl in Hrun.
  - by injection Hrun as <-.
  - destruct (step p e) as [p1|] eqn:He; [|done].
    apply (IH p1); [|done]. by apply (Hstep p e).
Qed.

Lemma settle_remoteCalls c client later q :
  remoteCalls (snd (settle c client later q)) = remoteCalls q.
Proof.
  destruct (success c client) as [rd|] eqn:Hs.
  - rewrite (settle_success c client later q rd Hs). simpl.
    by destruct (cacheActive q).
  - by rewrite settle_no_success.
Qed.

Lemma step_Resolve p c now now' p' :
  step p (Resolve c now now') = Some p' -> p' = snd (invoke c now now' p).
Proof. unfold step. destruct (stream p); by intros [= <-]. Qed.

Lemma step_Settle p c client later p' :
  step p (Settle c client later) = Some p' -> p' = snd (settle c client later p).
Proof. unfold step. destruct (stream p); by intros [= <-]. Qed.

(** Every transition changes the cache in one of the ways of
    [cacheStep] and keeps the caching switch. *)
Lemma step_cacheStep p e p' :
  step p e = Some p' ->
  cacheStep (cacheActive p) (cache p) (cache p')
  ∧ cacheActive p' = cacheActive p.
Proof.
  intros Hstep. destruct e as [m|random| |c now now'|c client later].
  - unfold step in Hstep. destruct (stream p) as [i n|i n delay|];
      try discriminate. injection Hstep as <-.
    split; [|by destruct (onMessage_frame m p) as (-> & _)].
    unfold onMessage.
    destruct (String.eqb (type m) EVENT_PROVIDER_READY); [constructor|].
    destruct (String.eqb (type m) EVENT_CONFIGURATION_CHANGE); [|constructor].
    destruct (data m) as [s|]; [|constructor].
    pose proof (cs_bust (cacheActive p)
                  (getField "flagKey" (Struct.fields s)) (cache p)) as H.
    by destruct (bustFlag _ _).
  - unfold step in Hstep. destruct (stream p) as [i n|i n delay|];
      try discriminate. injection Hstep as <-.
    unfold onClose. destruct (negb (i =? n)); split; (constructor || done).
  - unfold step in Hstep. destruct (stream p) as [i n|i n delay|];
      try discriminate. injection Hstep as <-.
    split; (constructor || done).
  - apply step_Resolve in Hstep as ->.
    destruct (invoke_control c now now' p) as (Ha & _); split; [|done].
    destruct (invoke_cases c now now' p)
      as [(r & q & -> & [-> | [Hact ->]]) | (_ & _ & _ & -> & _)].
    + constructor.
    + simpl. rewrite Hact. by constructor.
    + unfold afterLookup. destruct (cacheActive p) eqn:Hact; simpl;
        [by constructor | constructor].
  - apply step_Settle in Hstep as ->.
    destruct (settle_control c client later p) as (Ha & _); split; [|done].
    destruct (success c client) as [rd|] eqn:Hs;
      [|rewrite settle_no_success by done; constructor].
    rewrite (settle_success c client later p rd Hs). simpl.
    destruct (success_shape c client rd Hs) as [Herr Hvar].
    destruct (cacheActive p) eqn:Hact; simpl; [by constructor | constructor].
Qed.

(** *** What the cache operations keep *)

(** The invalidation loop removes entries and changes none. *)
Lemma bustFlag_cases fk c key :
  NodeCache.data (snd (bustFlag fk c)) !! key = None
  ∨ NodeCache.data (snd (bustFlag fk c)) !! key = NodeCache.data c !! key.
Proof.
  destruct (strictEqualsString fk (splitHead "--" key)) eqn:Hk.
  - left. by apply bustFlag_hit.
  - right. by apply bustFlag_other.
Qed.

Lemma get_cases key now c key' :
  NodeCache.data (snd (NodeCache.get key now c)) !! key' = None
  ∨ NodeCache.data (snd (NodeCache.get key now c)) !! key'
    = NodeCache.data c !! key'.
Proof.
  unfold NodeCache.get, NodeCache._check.
  destruct (NodeCache.data c !! key) as [w|]; [|by right].
  destruct (negb (NodeCache.t w =? 0) && (NodeCache.t w <? now)); simpl;
    [|by right].
  rewrite data_del. case_decide; [by left | by right].
Qed.

(** After [set] the cache is empty, or it is the cache before with the
    new entry under the key. *)
Lemma set_cases key value now c :
  NodeCache.data (NodeCache.set key value now c) = ∅
  ∨ NodeCache.set key value now c = NodeCache.store key value now c.
Proof.
  unfold NodeCache.set.
  destruct (listeners_cases
              (NodeCache.setListeners (NodeCache.store key value now c))
              (NodeCache.store key value now c)) as [-> | ->];
    [by right | by left].
Qed.

Lemma store_lookup_ne key value now c key' :
  key ≠ key' ->
  NodeCache.data (NodeCache.store key value now c) !! key'
  = NodeCache.data c !! key'.
Proof. intros Hne. simpl. by apply lookup_insert_ne. Qed.

Lemma cacheStep_clean active c c' :
  cacheStep active c c' -> entriesClean c -> entriesClean c'.
Proof.
  intros Hstep Hclean key' w' Hw'.
  destruct Hstep as [c|c|fk c|key now c Hact|key rd later c Hact Herr Hvar].
  - by apply (Hclean key').
  - simpl in Hw'. by rewrite lookup_empty in Hw'.
  - destruct (bustFlag_cases fk c key') as [H|H]; rewrite H in Hw';
      [done | by apply (Hclean key')].
  - destruct (get_cases key now c key') as [H|H]; rewrite H in Hw';
      [done | by apply (Hclean key')].
  - destruct (set_cases key rd later c) as [H|H]; rewrite H in Hw'.
    + by rewrite lookup_empty in Hw'.
    + destruct (decide (key = key')) as [<-|Hne].
      * rewrite store_lookup in Hw'. by injection Hw' as <-.
      * rewrite store_lookup_ne in Hw' by done. by apply (Hclean key').
Qed.

Lemma listeners_stdTTL ls c :
  NodeCache.stdTTL (fold_left NodeCache.runListener ls c) = NodeCache.stdTTL c.
Proof.
  revert c. induction ls as [|[n] ls IH]; intros c; simpl; [done|].
  rewrite IH. by destruct (_ >? n).
Qed.

Lemma bust_fold_stdTTL fk ks st :
  NodeCache.stdTTL (snd (fold_left (bustKey fk) ks st))
  = NodeCache.stdTTL (snd st).
Proof.
  revert st. induction ks as [|key ks IH]; intros st; simpl; [done|].
  rewrite IH. unfold bustKey.
  destruct (strictEqualsString fk (splitHead "--" key)); [|done].
  apply del_stdTTL.
Qed.

Lemma cacheStep_stdTTL active c c' :
  cacheStep active c c' -> NodeCache.stdTTL c' = NodeCache.stdTTL c.
Proof.
  intros [c0|c0|fk c0|key now c0 Hact|key rd later c0 Hact Herr Hvar].
  - done.
  - done.
  - apply bust_fold_stdTTL.
  - unfold NodeCache.get, NodeCache._check.
    destruct (NodeCache.data c0 !! key) as [w|]; [|done].
    destruct (negb (NodeCache.t w =? 0) && (NodeCache.t w <? now)); simpl;
      [apply del_stdTTL | done].
  - unfold NodeCache.set. by rewrite listeners_stdTTL.
Qed.

Lemma bustFlag_empty fk c :
  NodeCache.data c = ∅ -> snd (bustFlag fk c) = c.
Proof.
  intros H. unfold bustFlag, NodeCache.keysOf.
  by rewrite H, map_to_list_empty.
Qed.

(** With caching off an empty cache stays empty. *)
Lemma cacheStep_off_empty c c' :
  cacheStep false c c' -> NodeCache.data c = ∅ -> NodeCache.data c' = ∅.
Proof.
  intros [c0|c0|fk c0|key now c0 Hact|key rd later c0 Hact Herr Hvar] H;
    try done.
  by rewrite bustFlag_empty.
Qed.

Lemma entriesSize_nonneg (m : gmap string NodeCache.Wrapped) :
  0 ≤ NodeCache.entriesSize m.
Proof.
  unfold NodeCache.entriesSize.
  apply (map_fold_weak_ind (fun acc _ => 0 ≤ acc)); [done|].
  intros key w m' acc _ Hacc.
  unfold NodeCache._getKeyLength, NodeCache._getValLength,
    NodeCache.objectValueSize, NodeCache._size.
  destruct (variant (NodeCache.v w)), (errorCode (NodeCache.v w)); lia.
Qed.

End LifetimeFacts.

(** ** Further properties of the provider *)

Module LifetimeProperties.
Import Connect Provider Spec Examples Lifetime NodeCacheFacts ResolutionFacts
       StreamFacts FingerprintFacts LifetimeFacts.

Lemma new_clean options : entriesClean (cache (new options)).
Proof.
  intros key w. unfold new. simpl.
  destruct (negb (_ =? 0)); simpl; by rewrite lookup_empty.
Qed.

Lemma run_clean options es p :
  run (new options) es = Some p -> entriesClean (cache p).
Proof.
  apply (run_invariant (fun p => entriesClean (cache p))); [|apply new_clean].
  intros q e q' Hq Hstep.
  destruct (step_cacheStep q e q' Hstep) as [Hc _].
  by apply (cacheStep_clean _ _ _ Hc).
Qed.

(** X1. No error result is cached: in every state reachable from the
    constructor each cache entry has a variant and no error code, so the
    results of the readiness check and of the [catch] handlers, which
    carry an error code, are never stored, and a result with which a
    ready provider answers at once, which is one read from the cache,
    never carries an error code. *)
Theorem cache_holds_only_successes options es p :
  run (new options) es = Some p ->
  entriesClean (cache p)
  ∧ ∀ c now now' r p',
      providerReady p = true ->
      invoke c now now' p = (Resolved (Some r), p') ->
      errorCode r = None ∧ is_Some (variant r).
Proof.
  intros Hrun. pose proof (run_clean options es p Hrun) as Hclean.
  split; [done|]. intros c now now' r p' Hready Hinv.
  destruct (cacheActive p) eqn:Ha.
  - destruct (fst (NodeCache.get (callKey c) now (cache p))) as [e|] eqn:Hget.
    + rewrite (invoke_found c now now' p e Hready Ha Hget) in Hinv.
      injection Hinv as Hr _.
      apply get_Some in Hr as [_ (w & Hw & <-)]. by apply (Hclean (callKey c)).
    + destruct (invoke_miss c now now' p Hready (fun _ => Hget)) as (Hp & _).
      rewrite Hinv in Hp. discriminate.
  - destruct (invoke_miss c now now' p Hready) as (Hp & _); [congruence|].
    rewrite Hinv in Hp. discriminate.
Qed.

Lemma cache_holds_only_successes_witness :
  entriesClean (cache warm)
  ∧ ∀ c now now' r p',
      providerReady warm = true ->
      invoke c now now' warm = (Resolved (Some r), p') ->
      errorCode r = None ∧ is_Some (variant r).
Proof.
  refine (cache_holds_only_successes withCache
            [Message providerReadyMessage; Resolve flagA 0 0;
             Settle flagA staticClient 1] warm _).
  vm_compute. reflexivity.
Defined.

(** X2. No remote call before readiness: in every state reachable from
    the constructor in which the readiness flag is still unset, the log
    of remote calls is empty, whatever calls were made and whatever else
    happened. *)
Theorem no_remote_call_before_ready options es p :
  run (new options) es = Some p ->
  providerReady p = false ->
  remoteCalls p = [].
Proof.
  apply (run_invariant (fun p => providerReady p = false -> remoteCalls p = []));
    [|done].
  intros q e q' Hq Hstep Hnr.
  destruct e as [m|random| |c now now'|c client later].
  - unfold step in Hstep. destruct (stream q); try discriminate.
    injection Hstep as <-.
    destruct (onMessage_frame m q) as (_ & _ & _ & _ & _ & ->).
    apply Hq. destruct (providerReady q) eqn:Hr; [|done].
    by rewrite (onMessage_ready m q Hr) in Hnr.
  - unfold step in Hstep. destruct (stream q) as [i n|i n delay|];
      try discriminate. injection Hstep as <-.
    unfold onClose in *. destruct (negb (i =? n)); by apply Hq.
  - unfold step in Hstep. destruct (stream q) as [i n|i n delay|];
      try discriminate. injection Hstep as <-. by apply Hq.
  - apply step_Resolve in Hstep as ->.
    destruct (invoke_control c now now' q) as (_ & Hr & _). rewrite Hr in Hnr.
    rewrite (invoke_notReady c now now' q Hnr). by apply Hq.
  - apply step_Settle in Hstep as ->.
    destruct (settle_control c client later q) as (_ & Hr & _).
    rewrite Hr in Hnr. rewrite settle_remoteCalls. by apply Hq.
Qed.

Lemma no_remote_call_before_ready_witness :
  ∃ p, run (new withCache)
         [Resolve flagA 0 0; Close (1 # 2); Timeout; Resolve flagAString 3 3;
          Close (1 # 2); Resolve flagObject 9 9] = Some p
       ∧ remoteCalls p = [].
Proof.
  eexists. split; [vm_compute; reflexivity|].
  refine (no_remote_call_before_ready withCache
            [Resolve flagA 0 0; Close (1 # 2); Timeout; Resolve flagAString 3 3;
             Close (1 # 2); Resolve flagObject 9 9] _ _ _).
  - vm_compute. reflexivity.
  - reflexivity.
Defined.

(** Calls and their answers touch neither the stream nor its counters. *)
Lemma step_call_control p e p' :
  (∃ c now now', e = Resolve c now now')
  ∨ (∃ c client later, e = Settle c client later) ->
  step p e = Some p' -> sameControl p p'.
Proof.
  intros [(c & now & now' & ->) | (c & client & later & ->)] Hstep.
  - apply step_Resolve in Hstep as ->. apply invoke_control.
  - apply step_Settle in Hstep as ->. apply settle_control.
Qed.

Lemma step_budget n p e p' :
  budgetInv n p -> step p e = Some p' -> budgetInv n p'.
Proof.
  unfold budgetInv. intros H Hstep.
  destruct e as [m|random| |c now now'|c client later].
  - unfold step in Hstep. destruct (stream p) as [i k|i k delay|] eqn:Hs;
      try discriminate. injection Hstep as <-.
    destruct (onMessage_frame m p) as (_ & _ & -> & -> & -> & _).
    by rewrite Hs.
  - unfold step in Hstep. destruct (stream p) as [i k|i k delay|] eqn:Hs;
      try discriminate. injection Hstep as <-.
    destruct H as (-> & Hi & Hcalls & Hlen). unfold onClose.
    destruct (Z.eqb_spec i n) as [->|Hne]; simpl.
    + split; lia.
    + rewrite length_app. simpl. repeat split; lia.
  - unfold step in Hstep. destruct (stream p) as [i k|i k delay|] eqn:Hs;
      try discriminate. injection Hstep as <-.
    destruct H as (-> & Hi & Hcalls & Hlen). simpl. repeat split; lia.
  - destruct (step_call_control p _ p' (or_introl (ex_intro _ c (ex_intro _ now (ex_intro _ now' eq_refl)))) Hstep)
      as (_ & _ & _ & -> & -> & ->). done.
  - destruct (step_call_control p _ p'
                (or_intror (ex_intro _ c (ex_intro _ client (ex_intro _ later eq_refl))))
                Hstep) as (_ & _ & _ & -> & -> & ->). done.
Qed.

(** X3. The retry budget is never exceeded or replenished: for
    maxRetries >= 0, in every state reachable from the constructor the
    provider has opened between 1 and maxRetries + 1 subscriptions and
    set at most maxRetries retry timers, however the closes, messages
    (a provider_ready included) and calls interleave. *)
Theorem retry_budget_bound options es p n :
  Configuration.maxRetries (Configuration.getConfig options) = n ->
  0 ≤ n ->
  run (new options) es = Some p ->
  1 ≤ eventStreamCalls p ≤ n + 1
  ∧ Z.of_nat (length (timeouts p)) ≤ n.
Proof.
  intros Hn Hpos Hrun.
  assert (Hinv : budgetInv n p).
  { apply (run_invariant (budgetInv n) (step_budget n) es (new options)); [|done].
    unfold budgetInv.
    change (stream (new options))
      with (Open 0 (Configuration.maxRetries (Configuration.getConfig options))).
    change (eventStreamCalls (new options)) with (0 + 1).
    change (timeouts (new options)) with (@nil Q). rewrite Hn.
    cbn [length]. repeat split; lia. }
  unfold budgetInv in Hinv. destruct (stream p); lia.
Qed.

Lemma retry_budget_bound_witness :
  ∃ p, run ready [Close (1 # 2); Timeout; Message providerReadyMessage;
                  Close (1 # 3)] = Some p
       ∧ 1 ≤ eventStreamCalls p ≤ 1 + 1
       ∧ Z.of_nat (length (timeouts p)) ≤ 1.
Proof.
  eexists. split; [vm_compute; reflexivity|].
  refine (retry_budget_bound withCache
            [Message providerReadyMessage; Close (1 # 2); Timeout;
             Message providerReadyMessage; Close (1 # 3)] _ 1 _ _ _).
  - reflexivity.
  - lia.
  - vm_compute. reflexivity.
Defined.

Lemma step_unbounded p e p' :
  unboundedInv p -> step p e = Some p' -> unboundedInv p'.
Proof.
  unfold unboundedInv. intros [Herr Hs] Hstep.
  destruct e as [m|random| |c now now'|c client later].
  - unfold step in Hstep. destruct (stream p) as [i k|i k delay|] eqn:Hst;
      try discriminate. injection Hstep as <-.
    destruct (onMessage_frame m p) as (_ & -> & -> & _). by rewrite Hst.
  - unfold step in Hstep. destruct (stream p) as [i k|i k delay|] eqn:Hst;
      try discriminate. injection Hstep as <-. unfold onClose.
    destruct (Z.eqb_spec i k) as [->|Hne]; simpl; [lia|done].
  - unfold step in Hstep. destruct (stream p) as [i k|i k delay|] eqn:Hst;
      try discriminate. injection Hstep as <-. simpl. split; [done|lia].
  - destruct (step_call_control p _ p' (or_introl (ex_intro _ c (ex_intro _ now (ex_intro _ now' eq_refl)))) Hstep)
      as (_ & _ & -> & -> & _). done.
  - destruct (step_call_control p _ p'
                (or_intror (ex_intro _ c (ex_intro _ client (ex_intro _ later eq_refl))))
                Hstep) as (_ & _ & -> & -> & _). done.
Qed.

Lemma allAttemptsFail_unbounded random fuel :
  ∀ p, unboundedInv p -> allAttemptsFail fuel random p = None.
Proof.
  induction fuel as [|fuel IH]; intros p Hinv; pose proof Hinv as [_ Hs];
    destruct (stream p) as [i n|i n delay|] eqn:Hst; try done.
  - simpl. by rewrite Hst.
  - simpl. by rewrite Hst.
  - rewrite (StreamClaims.allAttemptsFail_open fuel random p i n Hst).
    apply IH. apply (step_unbounded p (Close (random i))); [done|].
    unfold step. by rewrite Hst.
  - rewrite (StreamClaims.allAttemptsFail_retrying fuel random p i n delay Hst).
    apply IH. apply (step_unbounded p Timeout); [done|].
    unfold step. by rewrite Hst.
Qed.

(** X4. A negative maxRetries never ends the retries: the index of the
    attempt, which starts at 0 and grows, never equals it, so in every
    state reachable from the constructor the connection-error flag is
    unset and a subscription or a retry timer is pending, and the run in
    which every attempt fails has no end, whatever the fuel. *)
Theorem negative_maxRetries_retries_forever options n :
  Configuration.maxRetries (Configuration.getConfig options) = n ->
  n < 0 ->
  (∀ es p, run (new options) es = Some p ->
           connectionError p = false ∧ stream p ≠ Closed)
  ∧ ∀ fuel random, allAttemptsFail fuel random (new options) = None.
Proof.
  intros Hn Hneg.
  assert (Hnew : unboundedInv (new options)).
  { unfold unboundedInv.
    change (stream (new options))
      with (Open 0 (Configuration.maxRetries (Configuration.getConfig options))).
    rewrite Hn. split; [done|lia]. }
  split.
  - intros es p Hrun.
    pose proof (run_invariant unboundedInv step_unbounded es _ p Hnew Hrun)
      as [Herr Hs].
    split; [done|]. by destruct (stream p).
  - intros fuel random. by apply allAttemptsFail_unbounded.
Qed.

Lemma negative_maxRetries_retries_forever_witness :
  (∀ es p, run (new (withRetries (-1))) es = Some p ->
           connectionError p = false ∧ stream p ≠ Closed)
  ∧ ∀ fuel random, allAttemptsFail fuel random (new (withRetries (-1))) = None.
Proof.
  refine (negative_maxRetries_retries_forever (withRetries (-1)) (-1) _ _).
  - reflexivity.
  - lia.
Defined.

(** X5. Terminal failure is final: once the retries of a provider that
    never became ready are exhausted, nothing that can still happen
    changes that, and every later call of any of the four methods is
    answered at once with the default value, the reason ERROR and the
    code CONNECTION_ERROR, without a remote call. *)
Theorem exhausted_stays_connection_error options es p es' p' c now now' :
  run (new options) es = Some p ->
  stream p = Closed ->
  providerReady p = false ->
  run p es' = Some p' ->
  stream p' = Closed
  ∧ invoke c now now' p'
    = (Resolved
         (Some {| value := callDefault c; reason := "ERROR";
                  errorCode := Some "CONNECTION_ERROR"; variant := None |}),
       p').
Proof.
  intros Hrun Hs Hnr Hrun'.
  assert (Herr : connectionError p = true).
  { rewrite (run_exhausted es (new options) p (new_exhausted options) Hrun).
    unfold exhausted. by rewrite Hs. }
  assert (Hinv : stream p' = Closed ∧ providerReady p' = false
                 ∧ connectionError p' = true).
  { apply (run_invariant
             (fun q => stream q = Closed ∧ providerReady q = false
                       ∧ connectionError q = true)) with (es := es') (p := p);
      [|done|done].
    intros q e q' (Hq1 & Hq2 & Hq3) Hstep.
    destruct e as [m|random| |c0 now0 now0'|c0 client later];
      try (unfold step in Hstep; rewrite Hq1 in Hstep; discriminate).
    - destruct (step_call_control q _ q'
                  (or_introl (ex_intro _ c0
                               (ex_intro _ now0 (ex_intro _ now0' eq_refl)))) Hstep)
        as (_ & -> & -> & -> & _). done.
    - destruct (step_call_control q _ q'
                  (or_intror (ex_intro _ c0 (ex_intro _ client
                                                (ex_intro _ later eq_refl))))
                  Hstep) as (_ & -> & -> & -> & _). done. }
  destruct Hinv as (Hs' & Hnr' & Herr'). split; [done|].
  rewrite (invoke_notReady c now now' p' Hnr'). unfold notReady.
  by rewrite Herr'.
Qed.

Lemma exhausted_stays_connection_error_witness :
  ∃ p', run (new (withRetries 0)) [Close (1 # 2); Resolve flagA 1 1] = Some p'
        ∧ stream p' = Closed
        ∧ invoke flagAString 2 2 p'
          = (Resolved
               (Some {| value := VString "none"; reason := "ERROR";
                        errorCode := Some "CONNECTION_ERROR";
                        variant := None |}), p').
Proof.
  eexists. split; [vm_compute; reflexivity|].
  refine (exhausted_stays_connection_error (withRetries 0) [Close (1 # 2)]
            _ [Resolve flagA 1 1] _ flagAString 2 2 _ _ _ _).
  - vm_compute. reflexivity.
  - reflexivity.
  - reflexivity.
  - vm_compute. reflexivity.
Defined.

(** X6. With caching off nothing is ever cached: in every state
    reachable from a constructor call without [cache: true] the cache is
    empty, and every call of a ready provider goes to the remote
    service. *)
Theorem cache_off_always_remote options es p :
  Configuration.cache (Configuration.getConfig options) = false ->
  run (new options) es = Some p ->
  NodeCache.data (cache p) = ∅
  ∧ ∀ c now now', providerReady p = true ->
             isPending (fst (invoke c now now' p)) = true
             ∧ remoteCalls (snd (invoke c now now' p))
               = (remoteCalls p
                  ++ [{| method := callName c; request := callRequest c |}])%list.
Proof.
  intros Hoff Hrun.
  assert (Hinv : cacheActive p = false ∧ NodeCache.data (cache p) = ∅).
  { apply (run_invariant
             (fun q => cacheActive q = false ∧ NodeCache.data (cache q) = ∅))
      with (es := es) (p := new options); [| |done].
    - intros q e q' [Ha He] Hstep.
      destruct (step_cacheStep q e q' Hstep) as [Hc Ha'].
      rewrite Ha in Hc, Ha'. split; [done|].
      by apply (cacheStep_off_empty _ _ Hc).
    - split; [exact Hoff|]. unfold new. simpl.
      by destruct (negb (_ =? 0)). }
  destruct Hinv as [Ha He]. split; [done|]. intros c now now' Hready.
  destruct (invoke_miss c now now' p Hready) as (Hp & Hsnd & _); [congruence|].
  split; [done|]. rewrite Hsnd. unfold afterLookup. by rewrite Ha.
Qed.

Lemma cache_off_always_remote_witness :
  ∃ p, run (new (withRetries 1))
         [Message providerReadyMessage; Resolve flagA 0 0;
          Settle flagA staticClient 1] = Some p
       ∧ NodeCache.data (cache p) = ∅
       ∧ ∀ c now now', providerReady p = true ->
                  isPending (fst (invoke c now now' p)) = true
                  ∧ remoteCalls (snd (invoke c now now' p))
                    = (remoteCalls p
                       ++ [{| method := callName c;
                              request := callRequest c |}])%list.
Proof.
  eexists. split; [vm_compute; reflexivity|].
  refine (cache_off_always_remote (withRetries 1)
            [Message providerReadyMessage; Resolve flagA 0 0;
             Settle flagA staticClient 1] _ _ _).
  - reflexivity.
  - vm_compute. reflexivity.
Defined.

Lemma cacheStep_negative_limit N active c c' :
  N < 0 ->
  NodeCache.statsExact c ->
  NodeCache.setListeners c = listenersFor N ->
  cacheStep active c c' ->
  NodeCache.data c = ∅ -> NodeCache.data c' = ∅.
Proof.
  intros HN Hexact Hls Hstep. revert Hexact Hls.
  destruct Hstep as [c0|c0|fk c0|key now c0 Hact|key rd later c0 Hact Herr Hvar];
    intros Hexact Hls He; try done.
  - by rewrite bustFlag_empty.
  - rewrite get_absent; [done|]. rewrite He. apply lookup_empty.
  - unfold NodeCache.set.
    replace (NodeCache.setListeners (NodeCache.store key rd later c0))
      with [NodeCache.BustOnSize N].
    2:{ change (NodeCache.setListeners (NodeCache.store key rd later c0))
          with (NodeCache.setListeners c0).
        rewrite Hls. unfold listenersFor.
        by replace (negb (N =? 0)) with true
          by (symmetry; apply negb_true_iff, Z.eqb_neq; lia). }
    cbn [fold_left NodeCache.runListener]. unfold NodeCache.getStats.
    destruct (statsExact_store key rd later c0 Hexact) as [-> _].
    pose proof (entriesSize_nonneg
                  (NodeCache.data (NodeCache.store key rd later c0))) as Hpos.
    unfold NodeCache.aggregateSize.
    replace (_ >? N) with true; [done|].
    symmetry. apply Z.gtb_lt. lia.
Qed.

(** X7. A negative cacheMaxBytes empties the cache at every insertion:
    the size listener is registered for any non-zero limit and the
    estimate is never below zero, so in every state reachable from such
    a constructor call the cache is empty and every call of a ready
    provider goes to the remote service. *)
Theorem negative_limit_caches_nothing options es p N :
  Configuration.cacheMaxBytes (Configuration.getConfig options) = N ->
  N < 0 ->
  run (new options) es = Some p ->
  NodeCache.data (cache p) = ∅
  ∧ ∀ c now now', providerReady p = true ->
             isPending (fst (invoke c now now' p)) = true.
Proof.
  intros HN Hneg Hrun.
  assert (Hinv : cacheInv N p ∧ NodeCache.data (cache p) = ∅).
  { apply (run_invariant
             (fun q => cacheInv N q ∧ NodeCache.data (cache q) = ∅))
      with (es := es) (p := new options); [| |done].
    - intros q e q' [[Hexact Hls] He] Hstep. split.
      + by apply (step_cacheInv N q e q').
      + destruct (step_cacheStep q e q' Hstep) as [Hc _].
        by apply (cacheStep_negative_limit N _ _ _ Hneg Hexact Hls Hc).
    - split; [rewrite <-HN; apply new_cacheInv|].
      unfold new. simpl. by destruct (negb (_ =? 0)). }
  destruct Hinv as [_ He]. split; [done|]. intros c now now' Hready.
  destruct (invoke_miss c now now' p Hready) as (Hp & _); [|done].
  intros _. rewrite get_absent; [done|]. rewrite He. apply lookup_empty.
Qed.

Lemma negative_limit_caches_nothing_witness :
  ∃ p, run (new (withLimit (-1)))
         [Message providerReadyMessage; Resolve flagA 0 0;
          Settle flagA staticClient 1] = Some p
       ∧ NodeCache.data (cache p) = ∅
       ∧ ∀ c now now', providerReady p = true ->
                  isPending (fst (invoke c now now' p)) = true.
Proof.
  eexists. split; [vm_compute; reflexivity|].
  refine (negative_limit_caches_nothing (withLimit (-1))
            [Message providerReadyMessage; Resolve flagA 0 0;
             Settle flagA staticClient 1] _ (-1) _ _ _).
  - reflexivity.
  - lia.
  - vm_compute. reflexivity.
Defined.

Lemma get_live key now c w :
  NodeCache.data c !! key = Some w ->
  NodeCache.t w = 0 ∨ now ≤ NodeCache.t w ->
  NodeCache.get key now c = (Some (NodeCache.v w), c).
Proof.
  intros Hw Hlive. unfold NodeCache.get, NodeCache._check. rewrite Hw.
  replace (negb (NodeCache.t w =? 0) && (NodeCache.t w <? now)) with false;
    [done|].
  symmetry. apply andb_false_iff.
  destruct Hlive as [H0|Hle];
    [left; apply negb_false_iff, Z.eqb_eq; done | right; apply Z.ltb_ge; done].
Qed.

Lemma get_expired key now c w :
  NodeCache.data c !! key = Some w ->
  NodeCache.t w ≠ 0 -> NodeCache.t w < now ->
  NodeCache.get key now c = (None, NodeCache.del key c).
Proof.
  intros Hw Hne Hlt. unfold NodeCache.get, NodeCache._check. rewrite Hw.
  replace (negb (NodeCache.t w =? 0) && (NodeCache.t w <? now)) with true;
    [done|].
  symmetry. apply andb_true_iff. split;
    [apply negb_true_iff, Z.eqb_neq; done | apply Z.ltb_lt; done].
Qed.

Lemma run_stdTTL options es p :
  run (new options) es = Some p ->
  NodeCache.stdTTL (cache p)
  = Configuration.cacheTTL (Configuration.getConfig options).
Proof.
  apply (run_invariant
           (fun q => NodeCache.stdTTL (cache q)
                     = Configuration.cacheTTL (Configuration.getConfig options))).
  - intros q e q' Hq Hstep.
    destruct (step_cacheStep q e q' Hstep) as [Hc _].
    by rewrite (cacheStep_stdTTL _ _ _ Hc).
  - unfold new. simpl. by destruct (negb (_ =? 0)).
Qed.

(** Without byte limit, the entry that the [then] handler of a
    successful call leaves in the cache. *)
Lemma stored_entry options es p c client later rd :
  Configuration.cacheMaxBytes (Configuration.getConfig options) = 0 ->
  run (new options) es = Some p ->
  cacheActive p = true ->
  success c client = Some rd ->
  settle c client later p
  = (Some rd,
     setCache (NodeCache.store (callKey c) rd later (cache p)) p)
  ∧ NodeCache.data (NodeCache.store (callKey c) rd later (cache p)) !! callKey c
    = Some (NodeCache._wrap rd
              (Configuration.cacheTTL (Configuration.getConfig options)) later).
Proof.
  intros HN Hrun Ha Hs.
  rewrite (settle_success c client later p rd Hs), Ha.
  destruct (run_cacheInv 0 es (new options) p) as [_ Hls];
    [rewrite <-HN; apply new_cacheInv | done |].
  unfold NodeCache.set.
  change (NodeCache.setListeners (NodeCache.store (callKey c) rd later (cache p)))
    with (NodeCache.setListeners (cache p)).
  rewrite Hls. split; [done|].
  rewrite store_lookup. by rewrite (run_stdTTL options es p Hrun).
Qed.

(** X8. Without TTL and byte limit a resolved flag stays resolved: in a
    caching provider built with cacheTTL = 0 and cacheMaxBytes = 0, once
    the remote call of a ready provider has answered with a value, the
    same call at any later time is answered at once with exactly that
    value, reason and variant, and leaves the provider as it is. *)
Theorem no_ttl_entry_never_expires
    options es p c client later rd p2 now2 now2' :
  Configuration.cacheTTL (Configuration.getConfig options) = 0 ->
  Configuration.cacheMaxBytes (Configuration.getConfig options) = 0 ->
  run (new options) es = Some p ->
  providerReady p = true ->
  cacheActive p = true ->
  success c client = Some rd ->
  p2 = snd (settle c client later p) ->
  fst (settle c client later p) = Some rd
  ∧ invoke c now2 now2' p2 = (Resolved (Some rd), p2).
Proof.
  intros HT HN Hrun Hready Ha Hs ->.
  destruct (stored_entry options es p c client later rd HN Hrun Ha Hs)
    as [-> Hw].
  rewrite HT in Hw.
  split; [done|]. simpl. apply invoke_hit; [done|done| |]; simpl.
  - rewrite (get_live _ _ _ _ Hw); [done|]. by left.
  - rewrite (get_live _ _ _ _ Hw); [done|]. by left.
Qed.

Lemma no_ttl_entry_never_expires_witness :
  fst (settle flagA staticClient 1 (snd (invoke flagA 0 0 ready))) = Some stored
  ∧ invoke flagA 1000000 2000000 warm = (Resolved (Some stored), warm).
Proof.
  refine (no_ttl_entry_never_expires withCache
            [Message providerReadyMessage; Resolve flagA 0 0]
            (snd (invoke flagA 0 0 ready)) flagA staticClient 1 stored warm
            1000000 2000000 _ _ _ _ _ _ _).
  - reflexivity.
  - reflexivity.
  - vm_compute. reflexivity.
  - reflexivity.
  - reflexivity.
  - reflexivity.
  - vm_compute. reflexivity.
Defined.

(** X9. Expiry: in a caching provider built with cacheTTL = T > 0
    seconds and no byte limit, a result stored at time [later] (in
    milliseconds, not negative) has the deadline [later + 1000 * T].  A
    call whose two lookups both read the clock up to the deadline is
    answered with the stored result; a call whose first lookup reads the
    clock after the deadline removes the entry and goes to the remote
    service again; and a call whose first lookup is in time and whose
    second is late resolves to [undefined]: the entry is removed and no
    remote call is made. *)
Theorem ttl_entry_expires options es p c client later rd p2 now2 now2' T :
  Configuration.cacheTTL (Configuration.getConfig options) = T ->
  0 < T ->
  Configuration.cacheMaxBytes (Configuration.getConfig options) = 0 ->
  run (new options) es = Some p ->
  providerReady p = true ->
  cacheActive p = true ->
  success c client = Some rd ->
  0 ≤ later ->
  p2 = snd (settle c client later p) ->
  (now2 ≤ later + T * 1000 -> now2' ≤ later + T * 1000 ->
   invoke c now2 now2' p2 = (Resolved (Some rd), p2))
  ∧ (later + T * 1000 < now2 ->
     isPending (fst (invoke c now2 now2' p2)) = true
     ∧ NodeCache.data (cache (snd (invoke c now2 now2' p2))) !! callKey c
       = None)
  ∧ (now2 ≤ later + T * 1000 -> later + T * 1000 < now2' ->
     fst (invoke c now2 now2' p2) = Resolved None
     ∧ NodeCache.data (cache (snd (invoke c now2 now2' p2))) !! callKey c
       = None
     ∧ remoteCalls (snd (invoke c now2 now2' p2)) = remoteCalls p2).
Proof.
  intros HT Hpos HN Hrun Hready Ha Hs Hlater ->.
  destruct (stored_entry options es p c client later rd HN Hrun Ha Hs)
    as [-> Hw].
  rewrite HT in Hw.
  assert (Ht : NodeCache.t (NodeCache._wrap rd T later) = later + T * 1000).
  { simpl. by replace (T =? 0) with false by (symmetry; apply Z.eqb_neq; lia). }
  assert (Hlive : ∀ t, t ≤ later + T * 1000 ->
            NodeCache.get (callKey c) t
              (NodeCache.store (callKey c) rd later (cache p))
            = (Some rd, NodeCache.store (callKey c) rd later (cache p))).
  { intros t Hle. rewrite (get_live _ _ _ _ Hw); [done|]. right. by rewrite Ht. }
  assert (Hdead : ∀ t, later + T * 1000 < t ->
            NodeCache.get (callKey c) t
              (NodeCache.store (callKey c) rd later (cache p))
            = (None, NodeCache.del (callKey c)
                       (NodeCache.store (callKey c) rd later (cache p)))).
  { intros t Hlt. apply (get_expired _ _ _ _ Hw); rewrite Ht; lia. }
  simpl. split; [|split].
  - intros Hle Hle'. apply invoke_hit; [done|done| |]; simpl;
      by rewrite Hlive.
  - intros Hlt.
    destruct (invoke_miss c now2 now2'
                (setCache (NodeCache.store (callKey c) rd later (cache p)) p))
      as (Hp & Hsnd & _); [done | by simpl; rewrite Hdead |].
    split; [done|]. rewrite Hsnd. unfold afterLookup. simpl. rewrite Ha. simpl.
    rewrite Hdead by done. simpl. rewrite data_del. by case_decide.
  - intros Hle Hlt.
    rewrite (invoke_found c now2 now2'
               (setCache (NodeCache.store (callKey c) rd later (cache p)) p) rd);
      [|done|done|by simpl; rewrite Hlive].
    simpl. rewrite Hdead by done. simpl. split; [done|]. split; [|done].
    rewrite data_del. by case_decide.
Qed.

Lemma ttl_entry_expires_witness :
  (60001 ≤ 1 + 60 * 1000 -> 60002 ≤ 1 + 60 * 1000 ->
   invoke flagA 60001 60002
     (snd (settle flagA staticClient 1
             (onMessage providerReadyMessage (new (withTTL 60)))))
   = (Resolved (Some stored),
      snd (settle flagA staticClient 1
             (onMessage providerReadyMessage (new (withTTL 60))))))
  ∧ (1 + 60 * 1000 < 60001 ->
     isPending
       (fst (invoke flagA 60001 60002
               (snd (settle flagA staticClient 1
                       (onMessage providerReadyMessage (new (withTTL 60)))))))
     = true
     ∧ NodeCache.data
         (cache
            (snd (invoke flagA 60001 60002
                    (snd (settle flagA staticClient 1
                            (onMessage providerReadyMessage
                               (new (withTTL 60))))))))
       !! callKey flagA = None)
  ∧ (60001 ≤ 1 + 60 * 1000 -> 1 + 60 * 1000 < 60002 ->
     fst (invoke flagA 60001 60002
            (snd (settle flagA staticClient 1
                    (onMessage providerReadyMessage (new (withTTL 60))))))
     = Resolved None
     ∧ NodeCache.data
         (cache
            (snd (invoke flagA 60001 60002
                    (snd (settle flagA staticClient 1
                            (onMessage providerReadyMessage
                               (new (withTTL 60))))))))
       !! callKey flagA = None
     ∧ remoteCalls
         (snd (invoke flagA 60001 60002
                 (snd (settle flagA staticClient 1
                         (onMessage providerReadyMessage
                            (new (withTTL 60)))))))
       = remoteCalls
           (snd (settle flagA staticClient 1
                   (onMessage providerReadyMessage (new (withTTL 60)))))).
Proof.
  refine (ttl_entry_expires (withTTL 60) [Message providerReadyMessage]
            (onMessage providerReadyMessage (new (withTTL 60)))
            flagA staticClient 1 stored _ 60001 60002 60 _ _ _ _ _ _ _ _ _).
  - reflexivity.
  - lia.
  - reflexivity.
  - reflexivity.
  - reflexivity.
  - reflexivity.
  - reflexivity.
  - lia.
  - reflexivity.
Defined.

(** X10. The cache is shared by the four methods: the key of an entry
    is built from the flag key and the context alone, so with caching on
    a call of one method for a flag key and context that another method
    has resolved, made while that entry is live at both of its lookups,
    is answered with that stored entry, whatever kind of value it holds
    (a string call can return a boolean value), and no remote call is
    made. *)
Theorem cache_shared_across_methods
    c1 c2 client now1 now1' later now2 now2' p pr1 p1 r1 p2 :
  callKey c2 = callKey c1 ->
  providerReady p = true ->
  cacheActive p = true ->
  invoke c1 now1 now1' p = (pr1, p1) ->
  await client later pr1 p1 = (r1, p2) ->
  fst (NodeCache.get (callKey c1) now2 (cache p2)) ≠ None ->
  fst (NodeCache.get (callKey c1) now2' (cache p2)) ≠ None ->
  ∃ w,
    NodeCache.data (cache p2) !! callKey c1 = Some w
    ∧ r1 = Some (NodeCache.v w)
    ∧ invoke c2 now2 now2' p2 = (Resolved (Some (NodeCache.v w)), p2).
Proof.
  intros Hkey Hr Ha Hfirst Hawait Hlive Hlive'.
  destruct (entry_after_call c1 client now1 now1' later now2 p pr1 p1 r1 p2
              Hr Ha Hfirst Hawait Hlive) as (w & Hw & Hr1 & _ & Hr2 & Ha2).
  exists w. split; [done|]. split; [done|].
  apply invoke_hit; [done|done|by rewrite Hkey|]. rewrite Hkey.
  destruct (fst (NodeCache.get (callKey c1) now2' (cache p2))) as [e|] eqn:Hget;
    [|done].
  apply get_Some in Hget as [_ (w' & Hw' & <-)].
  rewrite Hw in Hw'. by injection Hw' as <-.
Qed.

Lemma cache_shared_across_methods_witness :
  ∃ w,
    NodeCache.data (cache warm) !! callKey flagA = Some w
    ∧ Some stored = Some (NodeCache.v w)
    ∧ invoke flagAString 5 6 warm = (Resolved (Some (NodeCache.v w)), warm).
Proof.
  refine (cache_shared_across_methods flagA flagAString staticClient 0 0 1 5 6
            ready (fst (invoke flagA 0 0 ready)) (snd (invoke flagA 0 0 ready))
            (Some stored) warm _ _ _ _ _ _ _).
  - reflexivity.
  - reflexivity.
  - reflexivity.
  - apply surjective_pairing.
  - vm_compute. reflexivity.
  - vm_compute. discriminate.
  - vm_compute. discriminate.
Defined.

Lemma afterCall_ready name req key now p :
  providerReady (logCall name req (afterLookup key now p)) = providerReady p.
Proof. unfold afterLookup. by destruct (cacheActive p). Qed.

Lemma afterCall_absent name req key now p :
  (cacheActive p = true -> fst (NodeCache.get key now (cache p)) = None) ->
  cacheActive (logCall name req (afterLookup key now p)) = true ->
  NodeCache.data (cache (logCall name req (afterLookup key now p))) !! key
  = None.
Proof.
  unfold afterLookup. intros Hmiss.
  destruct (cacheActive p) eqn:Ha; simpl; [|congruence].
  intros _. by apply get_None, Hmiss.
Qed.

(** X11. An object flag without value is never cached: when the remote
    service answers an object call without a value, the call returns
    the default value with the reason and variant of the answer and
    leaves the provider as it is, so the same call goes to the remote
    service again at any later time. *)
Theorem object_without_value_not_cached k d ctx client res now1 now1' later p :
  providerReady p = true ->
  isPending (fst (invoke (CallObject k d ctx) now1 now1' p)) = true ->
  resolveObject client (makeRequest k ctx) = Fulfilled res ->
  res_value res = None ->
  await client later (fst (invoke (CallObject k d ctx) now1 now1' p))
    (snd (invoke (CallObject k d ctx) now1 now1' p))
  = (Some {| value := VObject d; reason := res_reason res;
             variant := Some (res_variant res); errorCode := None |},
     snd (invoke (CallObject k d ctx) now1 now1' p))
  ∧ ∀ now2 now2',
      isPending
        (fst (invoke (CallObject k d ctx) now2 now2'
                (snd (invoke (CallObject k d ctx) now1 now1' p)))) = true.
Proof.
  intros Hready Hpending Hres Hnone.
  destruct (invoke_cases (CallObject k d ctx) now1 now1' p)
    as [(r & q0 & Hr & _) | (_ & Hmiss & _ & Hsnd & Hawait)].
  { rewrite Hr in Hpending. discriminate. }
  split.
  - rewrite Hawait. simpl. unfold handlers. rewrite Hres. simpl.
    by rewrite Hnone.
  - intros now2 now2'. rewrite Hsnd.
    apply invoke_miss; [by rewrite afterCall_ready|].
    intros Ha. rewrite get_absent; [done|]. by apply afterCall_absent.
Qed.

Lemma object_without_value_not_cached_witness :
  await noValueClient 1 (fst (invoke flagObject 0 0 ready))
    (snd (invoke flagObject 0 0 ready))
  = (Some {| value := VObject JNull; reason := "STATIC";
             variant := Some "on"; errorCode := None |},
     snd (invoke flagObject 0 0 ready))
  ∧ ∀ now2 now2',
      isPending
        (fst (invoke flagObject now2 now2' (snd (invoke flagObject 0 0 ready))))
      = true.
Proof.
  refine (object_without_value_not_cached "flag-o" JNull [] noValueClient
            (answer None) 0 0 1 ready _ _ _ _).
  - reflexivity.
  - vm_compute. reflexivity.
  - reflexivity.
  - reflexivity.
Defined.

(** X12. Invalidation forces a fresh resolution: after a
    configuration_change notification for a flag key in which the
    separator does not occur, every call of a ready provider for that
    flag, whatever its context and method, goes to the remote service,
    and a provider_ready seen before stays in force. *)
Theorem invalidation_forces_remote_call A ctx c type source now now' p :
  sepFree A = true ->
  callKey c = fingerprint A ctx ->
  providerReady p = true ->
  isPending
    (fst (invoke c now now' (onMessage (configurationChange type source A) p)))
  = true.
Proof.
  intros HA Hkey Hready.
  apply invoke_miss; [by apply onMessage_ready|]. intros _.
  rewrite get_absent; [done|]. rewrite Hkey.
  change (onMessage (configurationChange type source A) p)
    with (let '(deleted, c) := bustFlag (Some (JString A)) (cache p) in
          setCache c p).
  pose proof (bustFlag_hit (Some (JString A)) (cache p) (fingerprint A ctx))
    as Hhit.
  destruct (bustFlag (Some (JString A)) (cache p)) as [deleted c0]. simpl in *.
  apply Hhit. rewrite splitHead_fingerprint by done. apply String.eqb_refl.
Qed.

Lemma invalidation_forces_remote_call_witness :
  isPending
    (fst (invoke flagAString 7 7
            (onMessage (configurationChange "update" "file" "flag-a") warm)))
  = true.
Proof.
  refine (invalidation_forces_remote_call "flag-a" [] flagAString
            "update" "file" 7 7 warm _ _ _).
  - reflexivity.
  - reflexivity.
  - reflexivity.
Defined.

(** X13. Notifications only remove: whatever message arrives, every key
    of the cache is afterwards absent or holds the entry it held before;
    a message never adds or rewrites an entry, never issues a remote
    call and never touches the connection-error flag. *)
Theorem message_only_removes m p key :
  (NodeCache.data (cache (onMessage m p)) !! key = None
   ∨ NodeCache.data (cache (onMessage m p)) !! key
     = NodeCache.data (cache p) !! key)
  ∧ remoteCalls (onMessage m p) = remoteCalls p
  ∧ connectionError (onMessage m p) = connectionError p.
Proof.
  split; [|by destruct (onMessage_frame m p) as (_ & -> & _ & _ & _ & ->)].
  unfold onMessage.
  destruct (String.eqb (type m) EVENT_PROVIDER_READY); [by right|].
  destruct (String.eqb (type m) EVENT_CONFIGURATION_CHANGE); [|by right].
  destruct (data m) as [s|]; [|by left].
  pose proof (bustFlag_cases (getField "flagKey" (Struct.fields s)) (cache p) key)
    as H.
  by destruct (bustFlag _ _).
Qed.

Lemma retryDelay_bounds i r :
  0 ≤ i -> (0 <= r)%Q -> (r < 1)%Q ->
  (0 <= retryDelay i r)%Q ∧ (retryDelay i r <= inject_Z (300 * (i + 1)))%Q.
Proof.
  intros Hi Hr0 Hr1. unfold retryDelay.
  assert (Hc : (0 <= inject_Z (i + 1))%Q).
  { change 0%Q with (inject_Z 0). rewrite <-Zle_Qle. lia. }
  rewrite inject_Z_mult.
  change (inject_Z 300) with 300%Q.
  set (cc := inject_Z (i + 1)) in *. clearbody cc.
  split; nra.
Qed.

(** The delays after the attempts [i0 .. i0 + k - 1] add up to at most
    300 * ((i0 + 1) + ... + (i0 + k)). *)
Lemma delays_sum_bound random k :
  (∀ i, (0 <= random i)%Q ∧ (random i < 1)%Q) ->
  ∀ i0 : nat,
    (0 <= Qsum ((fun i => retryDelay i (random i)) <$> (Z.of_nat <$> seq i0 k)))%Q
    ∧ (Qsum ((fun i => retryDelay i (random i)) <$> (Z.of_nat <$> seq i0 k))
       <= inject_Z (150 * Z.of_nat k * (2 * Z.of_nat i0 + Z.of_nat k + 1)))%Q.
Proof.
  intros Hrandom. induction k as [|k IH]; intros i0.
  - simpl. split; [apply Qle_refl|]. by rewrite Z.mul_0_r.
  - cbn [seq fmap list_fmap Qsum fold_right].
    destruct (IH (S i0)) as [IH0 IH1].
    destruct (Hrandom (Z.of_nat i0)) as [Hr0 Hr1].
    destruct (retryDelay_bounds (Z.of_nat i0) (random (Z.of_nat i0)))
      as [Hd0 Hd1]; [lia|done|done|].
    change (fold_right Qplus 0%Q ?l) with (Qsum l) in *.
    split.
    + change 0%Q with (0 + 0)%Q. by apply Qplus_le_compat.
    + replace (150 * Z.of_nat (S k) * (2 * Z.of_nat i0 + Z.of_nat (S k) + 1))
        with (300 * (Z.of_nat i0 + 1)
              + 150 * Z.of_nat k * (2 * Z.of_nat (S i0) + Z.of_nat k + 1))
        by (rewrite !Nat2Z.inj_succ; ring).
      rewrite inject_Z_plus. by apply Qplus_le_compat.
Qed.

(** X14. The total wait is bounded: for maxRetries = n >= 0 and jitter
    values in [0, 1), the delays that the provider waits before it
    gives up, when every attempt fails, add up to at most
    150 * n * (n + 1) milliseconds, the delay after attempt i being at
    most 300 * (i + 1). *)
Theorem total_retry_wait_bound options random n fuel :
  Configuration.maxRetries (Configuration.getConfig options) = n ->
  0 ≤ n ->
  (∀ i, (0 <= random i)%Q ∧ (random i < 1)%Q) ->
  (Z.to_nat (2 * n + 1) ≤ fuel)%nat ->
  ∃ p', allAttemptsFail fuel random (new options) = Some p'
        ∧ (0 <= Qsum (timeouts p'))%Q
        ∧ (Qsum (timeouts p') <= inject_Z (150 * n * (n + 1)))%Q.
Proof.
  intros Hn Hpos Hrandom Hfuel.
  destruct (StreamClaims.failures_from random (Z.to_nat n) 0 fuel (new options))
    as (p' & Hrun & _ & Htimeouts & _).
  - change (stream (new options))
      with (Open 0 (Configuration.maxRetries (Configuration.getConfig options))).
    rewrite Hn. f_equal. lia.
  - lia.
  - exists p'. split; [done|]. rewrite Htimeouts.
    change (timeouts (new options)) with (@nil Q). rewrite app_nil_l.
    destruct (delays_sum_bound random (Z.to_nat n) Hrandom 0) as [H0 H1].
    split; [done|].
    replace (150 * n * (n + 1))
      with (150 * Z.of_nat (Z.to_nat n)
            * (2 * Z.of_nat 0 + Z.of_nat (Z.to_nat n) + 1)); [done|].
    rewrite Z2Nat.id by done. simpl. ring.
Qed.

Lemma total_retry_wait_bound_witness :
  ∃ p', allAttemptsFail 7 (fun _ => 1 # 2) (new (withRetries 3)) = Some p'
        ∧ (0 <= Qsum (timeouts p'))%Q
        ∧ (Qsum (timeouts p') <= inject_Z (150 * 3 * (3 + 1)))%Q.
Proof.
  refine (total_retry_wait_bound (withRetries 3) (fun _ => 1 # 2) 3 7 _ _ _ _).
  - reflexivity.
  - lia.
  - intros _. split; [discriminate | reflexivity].
  - simpl. lia.
Defined.

Lemma length_append s1 s2 :
  String.length (s1 +:+ s2) = (String.length s1 + String.length s2)%nat.
Proof. induction s1 as [|c s1 IH]; simpl; [done | by rewrite IH]. Qed.

Lemma length_hexBytes bs : String.length (Md5.hexBytes bs) = (2 * length bs)%nat.
Proof. induction bs as [|b bs IH]; simpl; [done | rewrite IH; lia]. Qed.

Lemma length_leBytes n x : length (Md5.leBytes n x) = n.
Proof. revert x. induction n as [|n IH]; intros x; simpl; [done | by rewrite IH]. Qed.

(** The digest is printed as 32 characters. *)
Lemma length_hashStr s : String.length (Md5.hashStr s) = 32%nat.
Proof.
  unfold Md5.hashStr. rewrite length_hexBytes, !length_app, !length_leBytes.
  reflexivity.
Qed.

(** Strings that end in tails of the same length and are equal have
    equal heads. *)
Lemma append_same_tail_length s1 s2 t1 t2 :
  String.length t1 = String.length t2 ->
  s1 +:+ t1 = s2 +:+ t2 -> s1 = s2.
Proof.
  intros Hlen. revert s2. induction s1 as [|c s1 IH]; intros [|c2 s2] Heq.
  - done.
  - apply (f_equal String.length) in Heq.
    rewrite !length_append in Heq. simpl in Heq. lia.
  - apply (f_equal String.length) in Heq.
    rewrite !length_append in Heq. simpl in Heq. lia.
  - simpl in Heq. injection Heq as -> Heq. f_equal. by apply IH.
Qed.

(** X15. Entries of different flags never share a key: whatever the
    flag keys and contexts, cache keys built for two different flag keys
    are different, because a key ends in the separator and 32
    hexadecimal digits. *)
Theorem fingerprint_separates_flags A B ctxA ctxB :
  A ≠ B -> fingerprint A ctxA ≠ fingerprint B ctxB.
Proof.
  intros Hne Heq. apply Hne. rewrite !fingerprint_unfold in Heq.
  apply (append_same_tail_length A B
           ("--" +:+ Md5.hashStr (stringify (JObject ctxA)))
           ("--" +:+ Md5.hashStr (stringify (JObject ctxB)))); [|done].
  by rewrite !length_append, !length_hashStr.
Qed.

Lemma fingerprint_separates_flags_witness :
  fingerprint "my" [("plan", JString "pro")] ≠ fingerprint "my--other" [].
Proof.
  refine (fingerprint_separates_flags "my" "my--other"
            [("plan", JString "pro")] [] _).
  discriminate.
Defined.

End LifetimeProperties.
